(** * Google Tasks Filter: a shallow embedding of [content.js]

    The content script keeps a small filter state (a tag vocabulary, a set
    of active filters, a combination mode and a delete-mode flag), renders a
    control bar from it and toggles the class [task-hidden] on the task rows
    of the host page.

    Strings.  A JavaScript string is a sequence of UTF-16 code units.  The
    development works with the code units below 256 (the Latin-1 range),
    which is what [Stdlib.Strings.Ascii.ascii] holds: a [string] is the
    sequence of its code units, [String.le] is the code-unit lexicographic
    order used by the default [Array.prototype.sort], and [toLowerCase] is
    the Unicode lower-case mapping restricted to that range. *)

From Stdlib Require Import Ascii NArith Lia.
From Stdlib Require String.
From stdpp Require Import strings list sorting gmap.

(** ** String primitives of the host language *)

Module JS.

(** [String.prototype.toLowerCase] on one code unit: A-Z and the
    Latin-1 capitals U+00C0..U+00DE (without the multiplication sign
    U+00D7) move up by 32, everything else is kept. *)
Definition lower_unit (c : ascii) : ascii :=
  let n := N_of_ascii c in
  if ((65 <=? n) && (n <=? 90) ||
      (192 <=? n) && (n <=? 222) && negb (n =? 215))%N
  then ascii_of_N (n + 32) else c.

Fixpoint toLowerCase (s : string) : string :=
  match s with
  | "" => ""
  | String c s' => String (lower_unit c) (toLowerCase s')
  end.

(** [s.startsWith(pat)] *)
Fixpoint startsWith (s pat : string) {struct pat} : bool :=
  match pat with
  | "" => true
  | String p pat' =>
      match s with
      | "" => false
      | String c s' => if Ascii.eqb c p then startsWith s' pat' else false
      end
  end.

(** [s.includes(pat)]: [pat] occurs somewhere in [s]. *)
Fixpoint includes (s pat : string) : bool :=
  startsWith s pat ||
  match s with
  | "" => false
  | String _ s' => includes s' pat
  end.

Fixpoint skip (n : nat) (s : string) : string :=
  match n, s with
  | O, _ => s
  | S _, "" => ""
  | S n', String _ s' => skip n' s'
  end.

(** [s.replace(pat, rep)] for a string pattern: only the first
    occurrence of [pat] is replaced.  ([rep] is taken literally; the
    script only ever passes the empty replacement.) *)
Fixpoint replace (s pat rep : string) : string :=
  if startsWith s pat then rep +:+ skip (String.length pat) s
  else match s with
       | "" => ""
       | String c s' => String c (replace s' pat rep)
       end.

(** White space and line terminators of the language, in the Latin-1
    range: TAB, LF, VT, FF, CR, SP and NBSP. *)
Definition is_white (c : ascii) : bool :=
  let n := N_of_ascii c in
  ((9 <=? n) && (n <=? 13) || (n =? 32) || (n =? 160))%N.

Fixpoint trimStart (s : string) : string :=
  match s with
  | "" => ""
  | String c s' => if is_white c then trimStart s' else s
  end.

Fixpoint trimEnd (s : string) : string :=
  match s with
  | "" => ""
  | String c s' =>
      match trimEnd s' with
      | "" => if is_white c then "" else String c ""
      | r => String c r
      end
  end.

(** [s.trim()] *)
Definition trim (s : string) : string := trimEnd (trimStart s).

(** Truthiness of a string value: non-empty. *)
Definition truthy (s : string) : bool :=
  match s with "" => false | _ => true end.

End JS.

(** [sub] is a substring of [s]. *)
Definition substring_of (sub s : string) : Prop :=
  ∃ pre post : string, s = pre +:+ sub +:+ post.

(** Number of ['#'] code units of a string. *)
Fixpoint count_hash (s : string) : nat :=
  match s with
  | "" => 0
  | String c s' => (if Ascii.eqb c "#" then 1 else 0) + count_hash s'
  end.

Definition is_lowercase (s : string) : Prop := JS.toLowerCase s = s.

Definition leading_hash (s : string) : bool := JS.startsWith s "#".

(** ** The filter state and the page *)

(** [state.filterMode]: the strings ['OR'] and ['AND']. *)
Inductive FilterMode : Type := OR | AND.

Global Instance FilterMode_eq_dec : EqDecision FilterMode.
Proof. solve_decision. Defined.

(** [this.state] of [GoogleTasksFilter]: [tags] is an array,
    [activeFilters] a [Set] of strings. *)
Record State : Type := mkState {
  tags : list string;
  activeFilters : gset string;
  filterMode : FilterMode;
  isDeleteMode : bool
}.

(** A chip made by [createChip]: its text and its class tokens. *)
Record Chip : Type := mkChip {
  chipText : string;
  chipClasses : list string
}.

(** A tag chip together with what its click handler captured at render
    time: the tag, and whether the tag was active. *)
Record TagChip : Type := mkTagChip {
  chip : Chip;
  boundTag : string;
  boundActive : bool
}.

(** The [input-container] built by [renderControls]. *)
Record Controls : Type := mkControls {
  inputDisabled : bool;
  trashClasses : list string
}.

(** The children of [#tag-filter-bar], in document order: the mode
    button, one chip per tag, the controls. *)
Record Bar : Type := mkBar {
  modeBtn : Chip;
  tagChips : list TagChip;
  controls : Controls
}.

(** A task row ([div[role="listitem"]]) of the host page: its rendered
    text, its class tokens, and everything else it carries. *)
Record Task : Type := mkTask {
  innerText : string;
  classList : list string;
  otherAttributes : list (string * string)
}.

(** The script instance with the parts of its environment it reads and
    writes: the persisted value of the key [customTags], whether
    [dom.container] is set, the control bar if it is in the document, and
    the task rows in document order. *)
Record App : Type := mkApp {
  state : State;
  customTags : list string;
  container : bool;
  bar : option Bar;
  listitems : list Task
}.

(** The state built by the constructor. *)
Definition initial_state : State :=
  {| tags := []; activeFilters := ∅; filterMode := OR; isDeleteMode := false |}.

Definition with_state (a : App) (s : State) : App :=
  {| state := s; customTags := customTags a; container := container a;
     bar := bar a; listitems := listitems a |}.

Definition with_tags (s : State) (l : list string) : State :=
  {| tags := l; activeFilters := activeFilters s;
     filterMode := filterMode s; isDeleteMode := isDeleteMode s |}.

Definition with_activeFilters (s : State) (f : gset string) : State :=
  {| tags := tags s; activeFilters := f;
     filterMode := filterMode s; isDeleteMode := isDeleteMode s |}.

(** [Storage.set('customTags', val, cb)], up to the call of [cb]. *)
Definition Storage_set (a : App) (val : list string) : App :=
  {| state := state a; customTags := val; container := container a;
     bar := bar a; listitems := listitems a |}.

(** *** Rendering *)

Definition createChip (text : string) (classes : list string) : Chip :=
  {| chipText := text; chipClasses := "filter-chip" :: classes |}.

(** [el.classList.add(c)] and [el.classList.remove(c)] on a token list. *)
Definition classList_add (c : string) (l : list string) : list string :=
  if decide (c ∈ l) then l else l ++ [c].

Definition classList_remove (c : string) (l : list string) : list string :=
  filter (λ x, x ≠ c) l.

Definition chip_classList_add (c : string) (ch : Chip) : Chip :=
  {| chipText := chipText ch; chipClasses := classList_add c (chipClasses ch) |}.

(** [Array.prototype.sort()] without a comparator on an array of strings:
    ascending code-unit order. *)
Definition sort (l : list string) : list string := merge_sort String.le l.

Definition render_modeBtn (s : State) : Chip :=
  let modeBtn :=
    createChip (if decide (filterMode s = OR) then "Any" else "All") ["mode-btn"] in
  if decide (filterMode s = AND) then chip_classList_add "mode-active" modeBtn
  else modeBtn.

Definition render_tagChip (s : State) (tag : string) : TagChip :=
  let clean := JS.toLowerCase tag in
  let active := bool_decide (clean ∈ activeFilters s) in
  let btn := createChip ("#" +:+ tag) (if active then ["active"] else []) in
  {| chip := if isDeleteMode s then chip_classList_add "delete-mode-active" btn
             else btn;
     boundTag := tag;
     boundActive := active |}.

Definition renderControls (s : State) : Controls :=
  {| inputDisabled := isDeleteMode s;
     trashClasses :=
       "control-btn" :: "trash-btn" ::
       (if isDeleteMode s then ["trash-active"] else []) |}.

(** [render()]: nothing without a container; otherwise the tag array is
    sorted in place and the bar is (re)built from it. *)
Definition render (a : App) : App :=
  if container a then
    let sorted := sort (tags (state a)) in
    let s := with_tags (state a) sorted in
    {| state := s;
       customTags := customTags a;
       container := container a;
       bar := Some {| modeBtn := render_modeBtn s;
                      tagChips := render_tagChip s <$> sorted;
                      controls := renderControls s |};
       listitems := listitems a |}
  else a.

(** *** Visibility recomputation *)

Definition hidden_class : string := "task-hidden".

Definition with_classList (t : Task) (l : list string) : Task :=
  {| innerText := innerText t; classList := l;
     otherAttributes := otherAttributes t |}.

(** The guard of the "add task" button (step 1 of [applyFilter]). *)
Definition is_add_button (text : string) : bool :=
  JS.includes text "add a task" || JS.includes text "create new".

(** The two [forEach] loops over the active filters. *)
Definition matchCount (text : string) (f : gset string) : nat :=
  set_fold (λ tag n, if JS.includes text ("#" +:+ tag) then S n else n) 0 f.

Definition allMatch (text : string) (f : gset string) : bool :=
  set_fold (λ tag acc, if negb (JS.includes text ("#" +:+ tag)) then false else acc)
           true f.

Definition shouldShow (s : State) (text : string) : bool :=
  match filterMode s with
  | OR => bool_decide (0 < matchCount text (activeFilters s))
  | AND => allMatch text (activeFilters s)
  end.

(** The body of the [tasks.forEach] callback. *)
Definition applyFilter_task (s : State) (task : Task) : Task :=
  let text := JS.toLowerCase (innerText task) in
  if is_add_button text then
    with_classList task (classList_remove hidden_class (classList task))
  else if bool_decide (size (activeFilters s) = 0) then
    with_classList task (classList_remove hidden_class (classList task))
  else if shouldShow s text then
    with_classList task (classList_remove hidden_class (classList task))
  else
    with_classList task (classList_add hidden_class (classList task)).

Definition applyFilter (a : App) : App :=
  {| state := state a; customTags := customTags a; container := container a;
     bar := bar a;
     listitems := applyFilter_task (state a) <$> listitems a |}.

(** A row is shown when it does not carry the marker class. *)
Definition shown (t : Task) : Prop := hidden_class ∉ classList t.

Global Instance shown_dec t : Decision (shown t).
Proof. unfold shown. apply _. Defined.

(** *** Vocabulary operations *)

(** The normalisation of [addTag]: [val.replace('#', '').toLowerCase()]. *)
Definition normalize (val : string) : string :=
  JS.toLowerCase (JS.replace val "#" "").

(** [addTag(val)] up to the return of [Storage.set]; the flag tells
    whether a completion callback was handed to the store. *)
Definition addTag_call (a : App) (val : string) : App * bool :=
  let clean := normalize val in
  if bool_decide (clean ∈ tags (state a)) then (a, false)
  else
    let l := tags (state a) ++ [clean] in
    (Storage_set (with_state a (with_tags (state a) l)) l, true).

(** [addTag(val)] with the completion callback run: [() => this.render()]. *)
Definition addTag (a : App) (val : string) : App :=
  let (a', pending) := addTag_call a val in
  if pending then render a' else a'.

(** [deleteTag(tag)] up to the return of [Storage.set]. *)
Definition deleteTag_call (a : App) (tag : string) : App :=
  let l := filter (λ t, t ≠ tag) (tags (state a)) in
  let s := with_activeFilters (with_tags (state a) l)
                              (activeFilters (state a) ∖ {[tag]}) in
  Storage_set (with_state a s) l.

(** [deleteTag(tag)] with the completion callback run:
    [() => { this.render(); this.applyFilter(); }]. *)
Definition deleteTag (a : App) (tag : string) : App :=
  applyFilter (render (deleteTag_call a tag)).

(** The click handler of a tag chip. *)
Definition tagChip_onclick (a : App) (c : TagChip) : App :=
  if isDeleteMode (state a) then deleteTag a (boundTag c)
  else
    let clean := JS.toLowerCase (boundTag c) in
    let f := if boundActive c then activeFilters (state a) ∖ {[clean]}
             else {[clean]} ∪ activeFilters (state a) in
    applyFilter (render (with_state a (with_activeFilters (state a) f))).

(** The click handler of the mode button. *)
Definition modeBtn_onclick (a : App) : App :=
  if isDeleteMode (state a) then a
  else
    let s := {| tags := tags (state a);
                activeFilters := activeFilters (state a);
                filterMode := if decide (filterMode (state a) = OR) then AND else OR;
                isDeleteMode := isDeleteMode (state a) |} in
    applyFilter (render (with_state a s)).

(** The [commit] closure of the tag input (Enter key or the [+] button). *)
Definition commit (a : App) (value : string) : App :=
  if JS.truthy (JS.trim value) then addTag a value else a.

(** The normalisation as the specification words it, for comparison:
    strip a leading ['#'], lower-case, trim. *)
Definition normalize_spec (val : string) : string :=
  JS.trim (JS.toLowerCase (if JS.startsWith val "#" then JS.skip 1 val else val)).

(** The invariant of the vocabulary. *)
Definition TagSet_inv (l : list string) : Prop :=
  NoDup l ∧ Forall is_lowercase l ∧ Forall (λ t, leading_hash t = false) l.

(** What the membership rule of the specification asks of a row under the
    current mode: some active tag, resp. every active tag, occurs in the
    case-folded text in its [#tag] form. *)
Definition membership_rule (s : State) (task : Task) : Prop :=
  let text := JS.toLowerCase (innerText task) in
  match filterMode s with
  | OR => ∃ t, t ∈ activeFilters s ∧ substring_of ("#" +:+ t) text
  | AND => ∀ t, t ∈ activeFilters s → substring_of ("#" +:+ t) text
  end.

(** Row number [i] of the page is shown once [applyFilter] has run. *)
Definition row_shown_after (a : App) (i : nat) : Prop :=
  ∃ task', listitems (applyFilter a) !! i = Some task' ∧ shown task'.

(** Sample data. *)
Definition work_urgent (m : FilterMode) : State :=
  {| tags := ["urgent"; "work"]; activeFilters := {["work"; "urgent"]};
     filterMode := m; isDeleteMode := false |}.

Definition row (text : string) (classes : list string) : Task :=
  {| innerText := text; classList := classes;
     otherAttributes := [("role", "listitem")] |}.

Definition fresh_app : App :=
  {| state := initial_state; customTags := []; container := true;
     bar := None; listitems := [] |}.

Definition page (s : State) (rows : list Task) : App :=
  {| state := s; customTags := tags s; container := true;
     bar := None; listitems := rows |}.

Definition add_row : Task := row "Add a task #work" ["task-hidden"].
Definition milk_row : Task := row "Buy milk #Work" ["task-hidden"].
Definition plain_row : Task := row "Call the bank" ["task-hidden"].

Definition hash_row : Task := row "Pay rent #" ["task-hidden"].

Definition empty_tag_active (m : FilterMode) : State :=
  {| tags := [""; "work"]; activeFilters := {[""]}; filterMode := m;
     isDeleteMode := false |}.

Definition no_filter (m : FilterMode) : State :=
  {| tags := ["work"]; activeFilters := ∅; filterMode := m;
     isDeleteMode := false |}.

(** *** The remaining handlers, bootstrap and mutation handling *)

(** The click handler of the trash button: flip the delete mode and
    render (the rows are not re-filtered). *)
Definition trashBtn_onclick (a : App) : App :=
  render (with_state a {| tags := tags (state a);
                          activeFilters := activeFilters (state a);
                          filterMode := filterMode (state a);
                          isDeleteMode := negb (isDeleteMode (state a)) |}).

(** What a pending timer runs: [this.init], or the debounced
    [() => this.applyFilter()]. *)
Inductive Callback : Type := CbInit | CbApplyFilter.

Global Instance Callback_eq_dec : EqDecision Callback.
Proof. solve_decision. Defined.

(** [MutationRecord.type] *)
Inductive MutationType : Type := childList | attributes | characterData.

Global Instance MutationType_eq_dec : EqDecision MutationType.
Proof. solve_decision. Defined.

(** A pending timer: the id [setTimeout] returned, its delay in
    milliseconds and its callback. *)
Record Timer : Type := mkTimer {
  timerId : nat;
  timerDelay : nat;
  timerCallback : Callback
}.

(** The script instance in its document: whether [div[role="main"]] is
    there, whether [dom.observer] is connected, the id held by
    [dom.debounce], the pending timers, and the next timer id. *)
Record World : Type := mkWorld {
  app : App;
  mainPresent : bool;
  observer : bool;
  debounce : option nat;
  timers : list Timer;
  nextTimer : nat
}.

Definition with_app (w : World) (a : App) : World :=
  {| app := a; mainPresent := mainPresent w; observer := observer w;
     debounce := debounce w; timers := timers w; nextTimer := nextTimer w |}.

(** [setTimeout(cb, delay)]: a fresh id, one more pending timer. *)
Definition setTimeout (w : World) (cb : Callback) (delay : nat) : World * nat :=
  ({| app := app w; mainPresent := mainPresent w; observer := observer w;
      debounce := debounce w;
      timers := timers w ++ [{| timerId := nextTimer w; timerDelay := delay;
                                timerCallback := cb |}];
      nextTimer := S (nextTimer w) |},
   nextTimer w).

(** [clearTimeout(id)]; nothing happens for [null] or a timer that is
    not pending. *)
Definition clearTimeout (w : World) (id : option nat) : World :=
  match id with
  | None => w
  | Some i =>
      {| app := app w; mainPresent := mainPresent w; observer := observer w;
         debounce := debounce w;
         timers := filter (λ t, timerId t ≠ i) (timers w);
         nextTimer := nextTimer w |}
  end.

(** The container search of [init]: the parent of the first task row,
    else the main region. *)
Definition anchor_found (w : World) : bool :=
  match listitems (app w) with
  | _ :: _ => true
  | [] => mainPresent w
  end.

(** [init()], with the callback of [Storage.get] run: without an anchor
    a retry is scheduled; with one, the stored vocabulary replaces
    [state.tags], the bar is rendered and the observer (re)started. *)
Definition init (w : World) : World :=
  if anchor_found w then
    let a := app w in
    let a1 := {| state := with_tags (state a) (customTags a);
                 customTags := customTags a;
                 container := true;
                 bar := bar a;
                 listitems := listitems a |} in
    {| app := render a1; mainPresent := mainPresent w; observer := true;
       debounce := debounce w; timers := timers w; nextTimer := nextTimer w |}
  else (setTimeout w CbInit 500).1.

(** The loop of [handleMutation] over the batch. *)
Definition shouldRefilter (mutations : list MutationType) : bool :=
  foldl (λ acc m, if decide (m = childList) then true else acc) false mutations.

(** [handleMutation(mutations)] *)
Definition handleMutation (w : World) (mutations : list MutationType) : World :=
  match bar (app w) with
  | None => init w
  | Some _ =>
      if shouldRefilter mutations then
        let w1 := clearTimeout w (debounce w) in
        let (w2, id) := setTimeout w1 CbApplyFilter 100 in
        {| app := app w2; mainPresent := mainPresent w2; observer := observer w2;
           debounce := Some id; timers := timers w2; nextTimer := nextTimer w2 |}
      else w
  end.

Definition run_callback (w : World) (cb : Callback) : World :=
  match cb with
  | CbInit => init w
  | CbApplyFilter => with_app w (applyFilter (app w))
  end.

(** The timer [t] fires: it leaves the pending timers and its callback
    runs. *)
Definition fire (w : World) (t : Timer) : World :=
  run_callback
    {| app := app w; mainPresent := mainPresent w; observer := observer w;
       debounce := debounce w;
       timers := filter (λ t', timerId t' ≠ timerId t) (timers w);
       nextTimer := nextTimer w |}
    (timerCallback t).

(** The script right after it is loaded: the constructor's state, no
    container yet, and the two bootstrap timers of the last two lines. *)
Definition loaded (stored : list string) (rows : list Task) (main : bool) : World :=
  {| app := {| state := initial_state; customTags := stored; container := false;
               bar := None; listitems := rows |};
     mainPresent := main; observer := false; debounce := None;
     timers := [ {| timerId := 0; timerDelay := 500; timerCallback := CbInit |};
                 {| timerId := 1; timerDelay := 1500; timerCallback := CbInit |} ];
     nextTimer := 2 |}.

(** The host page throws the control bar away. *)
Definition host_removes_bar (w : World) : World :=
  with_app w {| state := state (app w); customTags := customTags (app w);
                container := container (app w); bar := None;
                listitems := listitems (app w) |}.

(** The persisted vocabulary and the one in memory hold the same tags. *)
Definition store_in_sync (a : App) : Prop := customTags a ≡ₚ tags (state a).

(** The debounce slot owns every pending re-filter timer; timer ids are
    fresh and distinct. *)
Definition debounce_inv (w : World) : Prop :=
  NoDup (timerId <$> timers w) ∧
  (∀ t, t ∈ timers w → timerId t < nextTimer w) ∧
  (∀ t, t ∈ timers w → timerCallback t = CbApplyFilter → debounce w = Some (timerId t)).

(** Number of pending re-filter timers. *)
Definition pending_refilters (w : World) : nat :=
  length (filter (λ t, timerCallback t = CbApplyFilter) (timers w)).

(** Number of pending bootstrap timers. *)
Definition pending_inits (w : World) : nat :=
  length (filter (λ t, timerCallback t = CbInit) (timers w)).

(** All code units of a string are white space. *)
Fixpoint all_white (s : string) : bool :=
  match s with
  | "" => true
  | String c s' => JS.is_white c && all_white s'
  end.

(** More sample data. *)
Definition sample_world : World :=
  {| app := page (work_urgent OR) [add_row; milk_row; plain_row];
     mainPresent := true; observer := true; debounce := None;
     timers := []; nextTimer := 2 |}.

Example lower_ex : JS.toLowerCase "#Work AB" = "#work ab".
Proof. reflexivity. Qed.
Example lower_latin1_ex :
  JS.lower_unit (ascii_of_N 192) = ascii_of_N 224 ∧
  JS.lower_unit (ascii_of_N 215) = ascii_of_N 215 ∧
  JS.lower_unit (ascii_of_N 223) = ascii_of_N 223.
Proof. repeat split. Qed.
Example replace_ex : JS.replace "a#b#c" "#" "" = "ab#c".
Proof. reflexivity. Qed.
Example trim_ex : JS.trim "  a b  " = "a b".
Proof. reflexivity. Qed.
Example includes_ex : JS.includes "buy milk #work" "#work" = true.
Proof. reflexivity. Qed.

(** Typing "#" into the input and clicking the chip it makes leaves the
    empty tag in the vocabulary and among the active filters. *)
Example empty_tag_reachable :
  state (tagChip_onclick (commit fresh_app "#")
           (render_tagChip (state (commit fresh_app "#")) "")) =
  {| tags := [""]; activeFilters := {[""]}; filterMode := OR;
     isDeleteMode := false |}.
Proof. vm_compute. reflexivity. Qed.

(** Typing "Work", "#urgent" and clicking both chips gives the state
    [work_urgent OR]; a click on the mode button then gives
    [work_urgent AND]. *)
Example work_urgent_reachable :
  let a1 := commit (commit fresh_app "Work") "#urgent" in
  let a2 := tagChip_onclick a1 (render_tagChip (state a1) "work") in
  let a3 := tagChip_onclick a2 (render_tagChip (state a2) "urgent") in
  state a3 = work_urgent OR ∧ state (modeBtn_onclick a3) = work_urgent AND.
Proof. vm_compute. split; reflexivity. Qed.

(** ** Facts about the string primitives *)

Section string_facts.
Implicit Types s t pat pre post : string.
Implicit Types c : ascii.

Lemma app_empty_l s : "" +:+ s = s.
Proof. reflexivity. Qed.

Lemma app_String c s t : String c s +:+ t = String c (s +:+ t).
Proof. reflexivity. Qed.

Lemma app_empty_r s : s +:+ "" = s.
Proof. induction s as [|c s IH]; [done|]. by rewrite app_String, IH. Qed.

Lemma app_eq_empty s t : s +:+ t = "" → s = "" ∧ t = "".
Proof. destruct s; [done|]. by rewrite app_String. Qed.

Lemma lower_unit_idemp c : JS.lower_unit (JS.lower_unit c) = JS.lower_unit c.
Proof. by destruct c as [[] [] [] [] [] [] [] []]. Qed.

Lemma lower_unit_hash c :
  Ascii.eqb (JS.lower_unit c) "#" = Ascii.eqb c "#".
Proof. by destruct c as [[] [] [] [] [] [] [] []]. Qed.

Lemma toLowerCase_idemp s : JS.toLowerCase (JS.toLowerCase s) = JS.toLowerCase s.
Proof.
  induction s as [|c s IH]; simpl; [done|].
  by rewrite lower_unit_idemp, IH.
Qed.

Lemma toLowerCase_length s : String.length (JS.toLowerCase s) = String.length s.
Proof. induction s; simpl; congruence. Qed.

Lemma count_hash_toLowerCase s : count_hash (JS.toLowerCase s) = count_hash s.
Proof.
  induction s as [|c s IH]; simpl; [done|].
  by rewrite lower_unit_hash, IH.
Qed.

(** One step of [replace] when the pattern is the single unit ['#']. *)
Lemma replace_hash_String c s :
  JS.replace (String c s) "#" "" =
  if Ascii.eqb c "#" then s else String c (JS.replace s "#" "").
Proof.
  cbn [JS.replace JS.startsWith]. destruct (Ascii.eqb c "#"); reflexivity.
Qed.

Lemma replace_hash_empty : JS.replace "" "#" "" = "".
Proof. reflexivity. Qed.

Lemma count_hash_replace s :
  count_hash (JS.replace s "#" "") = pred (count_hash s).
Proof.
  induction s as [|c s IH]; [done|].
  rewrite replace_hash_String. simpl count_hash at 2.
  destruct (Ascii.eqb c "#") eqn:E; simpl; [done|]. by rewrite E, IH.
Qed.

Lemma replace_without_hash s :
  count_hash s = 0 → JS.replace s "#" "" = s.
Proof.
  induction s as [|c s IH]; [done|].
  rewrite replace_hash_String. simpl.
  destruct (Ascii.eqb c "#"); [done|]. intros H. by rewrite IH.
Qed.

Lemma replace_hash_length s :
  0 < count_hash s →
  S (String.length (JS.replace s "#" "")) = String.length s.
Proof.
  induction s as [|c s IH]; simpl count_hash; [lia|].
  rewrite replace_hash_String.
  destruct (Ascii.eqb c "#"); simpl; [done|]. intros H. by rewrite IH.
Qed.

Lemma startsWith_spec s pat :
  JS.startsWith s pat = true ↔ ∃ post, s = pat +:+ post.
Proof.
  revert s. induction pat as [|p pat IH]; intros s; simpl.
  { split; [by exists s|done]. }
  destruct s as [|c s].
  { split; [done|]. intros [post H]. by rewrite app_String in H. }
  destruct (Ascii.eqb_spec c p) as [->|Hne].
  - rewrite IH. split; intros [post H]; exists post.
    + by rewrite app_String, H.
    + rewrite app_String in H. congruence.
  - split; [done|]. intros [post H]. rewrite app_String in H. congruence.
Qed.

Lemma includes_spec s pat :
  JS.includes s pat = true ↔ substring_of pat s.
Proof.
  unfold substring_of. induction s as [|c s IH]; simpl.
  - rewrite orb_false_r, startsWith_spec. split.
    + intros [post H]. by exists "", post.
    + intros (pre & post & H). symmetry in H.
      apply app_eq_empty in H as [-> H]. by exists post.
  - rewrite orb_true_iff, startsWith_spec, IH. split.
    + intros [[post H]|(pre & post & H)].
      * by exists "", post.
      * exists (String c pre), post. by rewrite app_String, H.
    + intros ([|c' pre] & post & H).
      * left. by exists post.
      * right. rewrite app_String in H. exists pre, post. congruence.
Qed.

Lemma includes_hash s : JS.includes s "#" = true ↔ 0 < count_hash s.
Proof.
  induction s as [|c s IH]; simpl; [split; [done|lia]|].
  destruct (Ascii.eqb c "#"); simpl; [split; [lia|done]|]. apply IH.
Qed.

Lemma leading_hash_count s : leading_hash s = true → 0 < count_hash s.
Proof.
  unfold leading_hash. destruct s as [|c s]; simpl; [done|].
  destruct (Ascii.eqb c "#"); [lia|done].
Qed.

Lemma hash_le s t : String.le ("#" +:+ s) ("#" +:+ t) ↔ String.le s t.
Proof. reflexivity. Qed.
End string_facts.

(** ** Facts about the model *)

(** Closes a decidable closed goal by evaluation. *)
Ltac by_evaluation := apply (bool_decide_unpack _); vm_compute; exact I.

(** Refutes a substring claim between two literal strings. *)
Ltac not_substring :=
  let H := fresh in
  intros H; apply includes_spec in H; vm_compute in H; discriminate H.

Section filter_facts.
Implicit Types s : State.
Implicit Types task : Task.
Implicit Types text tag : string.
Implicit Types f : gset string.

Lemma foldr_count (P : string → bool) (l : list string) :
  0 < foldr (λ tag n, if P tag then S n else n) 0 l ↔
  ∃ t, t ∈ l ∧ P t = true.
Proof.
  induction l as [|x l IH]; simpl.
  - split; [lia|]. intros (t & Ht & _). by apply elem_of_nil in Ht.
  - destruct (P x) eqn:E.
    + split; [|lia]. intros _. exists x. split; [left|done].
    + rewrite IH. split; intros (t & Ht & HP).
      * exists t. split; [by right|done].
      * apply elem_of_cons in Ht as [->|Ht]; [congruence|by exists t].
Qed.

Lemma foldr_all (P : string → bool) (l : list string) :
  foldr (λ tag acc, if negb (P tag) then false else acc) true l = true ↔
  ∀ t, t ∈ l → P t = true.
Proof.
  induction l as [|x l IH]; simpl.
  - split; [|done]. intros _ t Ht. by apply elem_of_nil in Ht.
  - destruct (P x) eqn:E; simpl.
    + rewrite IH. split; intros H t.
      * intros [->|Ht]%elem_of_cons; auto.
      * intros Ht. apply H. by right.
    + split; [done|]. intros H. rewrite <- E. apply H. left.
Qed.

Lemma matchCount_pos text f :
  0 < matchCount text f ↔
  ∃ t, t ∈ f ∧ substring_of ("#" +:+ t) text.
Proof.
  unfold matchCount, set_fold. simpl.
  rewrite (foldr_count (λ tag, JS.includes text ("#" +:+ tag))).
  split; intros (t & Ht & H); exists t.
  - by rewrite <- elem_of_elements, <- includes_spec.
  - by rewrite elem_of_elements, includes_spec.
Qed.

Lemma allMatch_true text f :
  allMatch text f = true ↔
  ∀ t, t ∈ f → substring_of ("#" +:+ t) text.
Proof.
  unfold allMatch, set_fold. simpl.
  rewrite (foldr_all (λ tag, JS.includes text ("#" +:+ tag))).
  split; intros H t Ht.
  - apply includes_spec, H. by apply elem_of_elements.
  - apply includes_spec, H. by apply elem_of_elements in Ht.
Qed.

Lemma shouldShow_spec s task :
  shouldShow s (JS.toLowerCase (innerText task)) = true ↔ membership_rule s task.
Proof.
  unfold shouldShow, membership_rule. destruct (filterMode s).
  - rewrite bool_decide_eq_true. apply matchCount_pos.
  - apply allMatch_true.
Qed.

Lemma hidden_not_in_remove (l : list string) :
  hidden_class ∉ classList_remove hidden_class l.
Proof. unfold classList_remove. rewrite list_elem_of_filter. tauto. Qed.

Lemma hidden_in_add (l : list string) :
  hidden_class ∈ classList_add hidden_class l.
Proof.
  unfold classList_add. case_decide; [done|].
  apply elem_of_app. right. left.
Qed.

Lemma is_add_button_true text :
  is_add_button text = true ↔
  substring_of "add a task" text ∨ substring_of "create new" text.
Proof. unfold is_add_button. by rewrite orb_true_iff, !includes_spec. Qed.

(** The three ways a row ends up shown, and the one way it is hidden. *)
Lemma applyFilter_task_shown s task :
  shown (applyFilter_task s task) ↔
  is_add_button (JS.toLowerCase (innerText task)) = true ∨
  activeFilters s = ∅ ∨
  shouldShow s (JS.toLowerCase (innerText task)) = true.
Proof.
  unfold shown, applyFilter_task.
  destruct (is_add_button _) eqn:Eb; simpl.
  { split; [by left|]. intros _. apply hidden_not_in_remove. }
  case_bool_decide as Es; simpl.
  { apply size_empty_iff, leibniz_equiv in Es.
    split; [by right; left|]. intros _. apply hidden_not_in_remove. }
  assert (activeFilters s ≠ ∅) as Hne.
  { intros E. apply Es. by rewrite E, size_empty. }
  destruct (shouldShow _ _) eqn:Ew; simpl.
  { split; [by right; right|]. intros _. apply hidden_not_in_remove. }
  split; [|by intros [|[|]]].
  intros H. destruct H. apply hidden_in_add.
Qed.

Lemma applyFilter_lookup (a : App) (i : nat) :
  listitems (applyFilter a) !! i =
  applyFilter_task (state a) <$> listitems a !! i.
Proof. apply list_lookup_fmap. Qed.
End filter_facts.

Section app_facts.
Implicit Types a : App.
Implicit Types val tag : string.

Lemma row_shown_after_iff a i task :
  listitems a !! i = Some task →
  row_shown_after a i ↔ shown (applyFilter_task (state a) task).
Proof.
  intros Hi. unfold row_shown_after. rewrite applyFilter_lookup, Hi. simpl.
  split; [by intros (? & [= <-] & ?)|eauto].
Qed.

Lemma sort_Permutation (l : list string) : sort l ≡ₚ l.
Proof. apply merge_sort_Permutation. Qed.

Lemma sort_StronglySorted (l : list string) : StronglySorted String.le (sort l).
Proof. apply (StronglySorted_merge_sort _). Qed.

(** The order is total and antisymmetric, so the sorted arrangement of
    an array is unique: any sorting procedure returns [sort l]. *)
Lemma sort_unique (l k : list string) :
  k ≡ₚ l → Sorted String.le k → k = sort l.
Proof.
  intros Hp Hs. apply (Sorted_unique String.le); [done| |].
  - apply (Sorted_merge_sort _).
  - by rewrite sort_Permutation.
Qed.

Lemma render_tags a : tags (state (render a)) ≡ₚ tags (state a).
Proof.
  unfold render. destruct (container a); simpl; [|done]. apply sort_Permutation.
Qed.

Lemma render_activeFilters a :
  activeFilters (state (render a)) = activeFilters (state a).
Proof. unfold render. by destruct (container a). Qed.

Lemma render_customTags a : customTags (render a) = customTags a.
Proof. unfold render. by destruct (container a). Qed.

Lemma addTag_call_present a val :
  normalize val ∈ tags (state a) → addTag_call a val = (a, false).
Proof. intros H. unfold addTag_call. by rewrite bool_decide_eq_true_2. Qed.

Lemma addTag_present a val :
  normalize val ∈ tags (state a) → addTag a val = a.
Proof. intros H. unfold addTag. by rewrite addTag_call_present. Qed.

Lemma addTag_call_tags a val :
  tags (state (addTag_call a val).1) =
  if bool_decide (normalize val ∈ tags (state a)) then tags (state a)
  else tags (state a) ++ [normalize val].
Proof. unfold addTag_call. by case_bool_decide. Qed.

Lemma addTag_call_customTags a val :
  customTags (addTag_call a val).1 =
  if bool_decide (normalize val ∈ tags (state a)) then customTags a
  else tags (state a) ++ [normalize val].
Proof. unfold addTag_call. by case_bool_decide. Qed.

Lemma addTag_tags a val :
  tags (state (addTag a val)) ≡ₚ tags (state (addTag_call a val).1).
Proof.
  unfold addTag, addTag_call. case_bool_decide; simpl; [done|].
  apply render_tags.
Qed.

Lemma addTag_call_elem a val : normalize val ∈ tags (state (addTag_call a val).1).
Proof.
  rewrite addTag_call_tags. case_bool_decide; [done|].
  apply elem_of_app. right. left.
Qed.

Lemma addTag_elem a val : normalize val ∈ tags (state (addTag a val)).
Proof. rewrite addTag_tags. apply addTag_call_elem. Qed.

Lemma is_lowercase_normalize val : is_lowercase (normalize val).
Proof. apply toLowerCase_idemp. Qed.

Lemma count_hash_normalize val : count_hash (normalize val) = pred (count_hash val).
Proof. unfold normalize. by rewrite count_hash_toLowerCase, count_hash_replace. Qed.

Lemma normalize_without_hash val :
  count_hash val = 0 → normalize val = JS.toLowerCase val.
Proof. intros H. unfold normalize. by rewrite replace_without_hash. Qed.

(** The first ['#'] is the one that goes, wherever it stands. *)
Lemma normalize_first_hash pre post :
  count_hash pre = 0 →
  normalize (pre +:+ "#" +:+ post) = JS.toLowerCase (pre +:+ post).
Proof.
  intros H. unfold normalize. f_equal.
  induction pre as [|c pre IH]; [done|].
  rewrite !(app_String c pre), replace_hash_String. simpl in H.
  destruct (Ascii.eqb c "#"); [done|]. by rewrite IH.
Qed.

Lemma normalize_length val :
  0 < count_hash val → S (String.length (normalize val)) = String.length val.
Proof.
  intros H. unfold normalize. rewrite toLowerCase_length.
  by apply replace_hash_length.
Qed.

(** Where the normalisation is not a fixed point. *)
Lemma normalize_twice_differs val :
  2 ≤ count_hash val → normalize (normalize val) ≠ normalize val.
Proof.
  intros H E. apply (f_equal String.length) in E.
  pose proof (normalize_length (normalize val)) as H1.
  rewrite count_hash_normalize in H1. lia.
Qed.

Lemma TagSet_inv_Permutation (l k : list string) :
  l ≡ₚ k → TagSet_inv l → TagSet_inv k.
Proof. unfold TagSet_inv. intros E. by rewrite E. Qed.

Lemma deleteTag_call_tags a tag :
  tags (state (deleteTag_call a tag)) = filter (λ t, t ≠ tag) (tags (state a)).
Proof. reflexivity. Qed.

Lemma deleteTag_tags a tag :
  tags (state (deleteTag a tag)) ≡ₚ filter (λ t, t ≠ tag) (tags (state a)).
Proof. unfold deleteTag. simpl. by rewrite render_tags. Qed.

Lemma deleteTag_activeFilters a tag :
  activeFilters (state (deleteTag a tag)) = activeFilters (state a) ∖ {[tag]}.
Proof. unfold deleteTag. simpl. by rewrite render_activeFilters. Qed.

Lemma deleteTag_customTags a tag :
  customTags (deleteTag a tag) = filter (λ t, t ≠ tag) (tags (state a)).
Proof. unfold deleteTag. simpl. by rewrite render_customTags. Qed.
End app_facts.

(** ** Visibility of task rows *)

(** C1, as stated, fails on a row that carries the "add task" phrase: with
    the active filters [work] and [urgent] in ALL mode, the row
    "Add a task #work" contains [#work] and not [#urgent], the membership
    rule does not hold of it, and [applyFilter] still marks it shown. *)
Lemma applyFilter_membership_fails_on_add_button :
  activeFilters (work_urgent AND) ≠ ∅ ∧
  substring_of "#work" (JS.toLowerCase (innerText add_row)) ∧
  ¬ substring_of "#urgent" (JS.toLowerCase (innerText add_row)) ∧
  ¬ membership_rule (work_urgent AND) add_row ∧
  row_shown_after (page (work_urgent AND) [add_row]) 0.
Proof.
  split; [by_evaluation|].
  split; [by apply includes_spec|].
  split; [not_substring|]. split.
  - intros H%shouldShow_spec. vm_compute in H. discriminate.
  - apply (row_shown_after_iff _ _ add_row); [done|]. by_evaluation.
Qed.

(** C1 (amended): for every row whose case-folded text carries neither
    "add a task" nor "create new", and every non-empty set of active
    filters, [applyFilter] marks the row shown iff some active tag (mode
    ANY), resp. every active tag (mode ALL), occurs in the case-folded
    text in its [#tag] form; with the active filters [work] and [urgent],
    such a row with [#work] and without [#urgent] is shown under ANY and
    hidden under ALL. *)
Theorem applyFilter_membership (a : App) (i : nat) (task : Task) :
  listitems a !! i = Some task →
  activeFilters (state a) ≠ ∅ →
  ¬ substring_of "add a task" (JS.toLowerCase (innerText task)) →
  ¬ substring_of "create new" (JS.toLowerCase (innerText task)) →
  (row_shown_after a i ↔ membership_rule (state a) task) ∧
  (activeFilters (state a) = {["work"; "urgent"]} →
   substring_of "#work" (JS.toLowerCase (innerText task)) →
   ¬ substring_of "#urgent" (JS.toLowerCase (innerText task)) →
   match filterMode (state a) with
   | OR => row_shown_after a i
   | AND => ¬ row_shown_after a i
   end).
Proof.
  intros Hi Hne Hadd Hnew.
  assert (row_shown_after a i ↔ membership_rule (state a) task) as Hiff.
  { rewrite (row_shown_after_iff _ _ _ Hi), applyFilter_task_shown.
    rewrite is_add_button_true, shouldShow_spec. tauto. }
  split; [done|]. intros Hf Hw Hu.
  unfold membership_rule in Hiff. rewrite Hf in Hiff.
  destruct (filterMode (state a)); rewrite Hiff.
  - exists "work". split; [set_solver|done].
  - intros H. apply Hu, H. set_solver.
Qed.

Lemma applyFilter_membership_witness :
  (listitems (page (work_urgent OR) [milk_row]) !! 0 = Some milk_row ∧
   activeFilters (work_urgent OR) ≠ ∅ ∧
   ¬ substring_of "add a task" (JS.toLowerCase (innerText milk_row)) ∧
   ¬ substring_of "create new" (JS.toLowerCase (innerText milk_row)) ∧
   substring_of "#work" (JS.toLowerCase (innerText milk_row)) ∧
   ¬ substring_of "#urgent" (JS.toLowerCase (innerText milk_row))) ∧
  row_shown_after (page (work_urgent OR) [milk_row]) 0 ∧
  ¬ row_shown_after (page (work_urgent AND) [milk_row]) 0.
Proof.
  assert (¬ substring_of "add a task" (JS.toLowerCase (innerText milk_row)))
    as Hadd by not_substring.
  assert (¬ substring_of "create new" (JS.toLowerCase (innerText milk_row)))
    as Hnew by not_substring.
  assert (substring_of "#work" (JS.toLowerCase (innerText milk_row)))
    as Hw by (by apply includes_spec).
  assert (¬ substring_of "#urgent" (JS.toLowerCase (innerText milk_row)))
    as Hu by not_substring.
  assert (activeFilters (work_urgent OR) ≠ ∅) as Hne by by_evaluation.
  split; [done|]. split.
  - exact (proj2 (applyFilter_membership (page (work_urgent OR) [milk_row]) 0
                    milk_row eq_refl Hne Hadd Hnew) eq_refl Hw Hu).
  - exact (proj2 (applyFilter_membership (page (work_urgent AND) [milk_row]) 0
                    milk_row eq_refl Hne Hadd Hnew) eq_refl Hw Hu).
Defined.

(** C4: a row whose case-folded text contains "add a task" is marked
    shown by [applyFilter] in every filter state, whatever the active
    filters and the mode. *)
Theorem applyFilter_add_task_row_shown (a : App) (i : nat) (task : Task) :
  listitems a !! i = Some task →
  substring_of "add a task" (JS.toLowerCase (innerText task)) →
  row_shown_after a i.
Proof.
  intros Hi H. rewrite (row_shown_after_iff _ _ _ Hi), applyFilter_task_shown.
  left. apply is_add_button_true. by left.
Qed.

Lemma applyFilter_add_task_row_shown_witness :
  (listitems (page (work_urgent AND) [add_row]) !! 0 = Some add_row ∧
   substring_of "add a task" (JS.toLowerCase (innerText add_row))) ∧
  row_shown_after (page (work_urgent AND) [add_row]) 0.
Proof.
  assert (substring_of "add a task" (JS.toLowerCase (innerText add_row)))
    as H by (by apply includes_spec).
  split; [done|].
  exact (applyFilter_add_task_row_shown (page (work_urgent AND) [add_row]) 0
           add_row eq_refl H).
Defined.

(** C5: with no active filter, [applyFilter] marks every row shown,
    whatever its text and whatever the mode. *)
Theorem applyFilter_no_filter_shows_all (a : App) (i : nat) (task : Task) :
  activeFilters (state a) = ∅ →
  listitems a !! i = Some task →
  row_shown_after a i.
Proof.
  intros He Hi. rewrite (row_shown_after_iff _ _ _ Hi), applyFilter_task_shown.
  by right; left.
Qed.

Lemma applyFilter_no_filter_shows_all_witness :
  (activeFilters (no_filter AND) = ∅ ∧
   listitems (page (no_filter AND) [plain_row]) !! 0 = Some plain_row) ∧
  row_shown_after (page (no_filter AND) [plain_row]) 0.
Proof.
  split; [done|].
  exact (applyFilter_no_filter_shows_all (page (no_filter AND) [plain_row]) 0
           plain_row eq_refl eq_refl).
Defined.

(** ** The tag vocabulary *)

Section vocabulary_facts.
Implicit Types a : App.
Implicit Types val t : string.

(** The normalised tag starts with ['#'] exactly when the input starts
    with two of them. *)
Lemma leading_hash_normalize val :
  leading_hash (normalize val) = JS.startsWith val "##".
Proof.
  unfold leading_hash, normalize.
  destruct val as [|c val]; [done|].
  rewrite replace_hash_String. simpl JS.startsWith at 2.
  destruct (Ascii.eqb c "#") eqn:E.
  - destruct val as [|d val]; [done|]. simpl.
    rewrite lower_unit_hash. by destruct (Ascii.eqb d "#").
  - simpl. by rewrite lower_unit_hash, E.
Qed.

Lemma TagSet_inv_snoc (l : list string) t :
  TagSet_inv l → t ∉ l → is_lowercase t → leading_hash t = false →
  TagSet_inv (l ++ [t]).
Proof.
  intros (Hnd & Hlow & Hlead) Hnotin Ht Hh. repeat split.
  - apply NoDup_app. split_and!; [done| |apply NoDup_singleton].
    intros x Hx ->%list_elem_of_singleton. done.
  - apply Forall_app. split; [done|]. by constructor.
  - apply Forall_app. split; [done|]. by constructor.
Qed.

(** Without a condition on the input, the two other parts of the
    invariant are kept. *)
Lemma addTag_NoDup_lowercase a val :
  NoDup (tags (state a)) → Forall is_lowercase (tags (state a)) →
  NoDup (tags (state (addTag a val))) ∧
  Forall is_lowercase (tags (state (addTag a val))).
Proof.
  intros Hnd Hlow. rewrite addTag_tags, addTag_call_tags.
  case_bool_decide as Hin; [done|]. split.
  - apply NoDup_app. split_and!; [done| |apply NoDup_singleton].
    intros x Hx ->%list_elem_of_singleton. done.
  - apply Forall_app. split; [done|]. constructor; [|done].
    apply is_lowercase_normalize.
Qed.
End vocabulary_facts.

(** C2, as stated, fails on an input with two ['#']: the first pass
    removes one, the second pass removes the other. *)
Lemma normalize_not_fixed_point :
  normalize "##Work" = "#work" ∧ normalize (normalize "##Work") = "work" ∧
  normalize (normalize "##Work") ≠ normalize "##Work".
Proof. split; [done|]. split; [done|]. vm_compute. discriminate. Qed.

(** C2 (amended): the normalisation of [addTag] removes the first ['#'] of
    its input and lower-cases; on every string with at most one ['#'] it
    is a fixed point, [normalize (normalize t) = normalize t], and its
    result is lower-case and carries no ['#']. *)
Theorem normalize_fixed_point (t : string) :
  count_hash t ≤ 1 →
  normalize (normalize t) = normalize t ∧
  is_lowercase (normalize t) ∧
  count_hash (normalize t) = 0.
Proof.
  intros H.
  assert (count_hash (normalize t) = 0) as H0.
  { rewrite count_hash_normalize. lia. }
  split_and!; [|apply is_lowercase_normalize|done].
  rewrite (normalize_without_hash _ H0). apply is_lowercase_normalize.
Qed.

Lemma normalize_fixed_point_witness :
  count_hash "#Work" ≤ 1 ∧
  normalize (normalize "#Work") = normalize "#Work".
Proof.
  assert (count_hash "#Work" ≤ 1) as H by (vm_compute; lia).
  split; [done|]. exact (proj1 (normalize_fixed_point "#Work" H)).
Defined.

(** C3, as stated, fails twice: [addTag] does not trim (" Home " is
    stored with its blanks, where the specification's normalisation gives
    "home"), and an input that starts with two ['#'] leaves an entry with
    a leading ['#'] in the vocabulary. *)
Lemma addTag_breaks_TagSet_inv :
  tags (state (addTag fresh_app " Home ")) = [" home "] ∧
  normalize_spec " Home " = "home" ∧
  TagSet_inv (tags (state fresh_app)) ∧
  tags (state (addTag fresh_app "##a")) = ["#a"] ∧
  ¬ TagSet_inv (tags (state (addTag fresh_app "##a"))).
Proof.
  split; [done|]. split; [done|]. split.
  { repeat split; constructor. }
  split; [done|].
  intros (_ & _ & H). change (Forall (λ t, leading_hash t = false) ["#a"]) in H.
  apply Forall_cons in H as [H _]. vm_compute in H. discriminate.
Qed.

(** C3 (amended): [addTag] normalises its raw input by removing its first
    ['#'] and lower-casing, without trimming, and appends the result unless
    it is already there; the invariant of the vocabulary - no duplicates,
    all entries lower-case, no entry with a leading ['#'] - is kept by
    every [addTag] call whose input does not start with two ['#']. *)
Theorem addTag_TagSet_inv (a : App) (val : string) :
  TagSet_inv (tags (state a)) →
  JS.startsWith val "##" = false →
  TagSet_inv (tags (state (addTag a val))) ∧
  TagSet_inv (tags (state (addTag_call a val).1)) ∧
  tags (state (addTag_call a val).1) =
    (if bool_decide (normalize val ∈ tags (state a)) then tags (state a)
     else tags (state a) ++ [normalize val]) ∧
  (count_hash val = 0 → normalize val = JS.toLowerCase val) ∧
  (∀ pre post, val = pre +:+ "#" +:+ post → count_hash pre = 0 →
     normalize val = JS.toLowerCase (pre +:+ post)).
Proof.
  intros Hinv Hval.
  assert (TagSet_inv (tags (state (addTag_call a val).1))) as H1.
  { rewrite addTag_call_tags. case_bool_decide as Hin; [done|].
    apply TagSet_inv_snoc; [done|done|apply is_lowercase_normalize|].
    by rewrite leading_hash_normalize. }
  split_and!; [|done|apply addTag_call_tags|apply normalize_without_hash|].
  - eapply TagSet_inv_Permutation; [|exact H1]. symmetry. apply addTag_tags.
  - intros pre post -> Hpre. by apply normalize_first_hash.
Qed.

Lemma addTag_TagSet_inv_witness :
  (TagSet_inv ["urgent"; "work"] ∧ JS.startsWith "#Home Office " "##" = false) ∧
  TagSet_inv (tags (state (addTag (page (work_urgent OR) []) "#Home Office "))) ∧
  tags (state (addTag (page (work_urgent OR) []) "#Home Office ")) =
    ["home office "; "urgent"; "work"].
Proof.
  assert (TagSet_inv ["urgent"; "work"]) as H.
  { repeat split; [by_evaluation|by repeat constructor..]. }
  split; [done|]. split; [|done].
  exact (proj1 (addTag_TagSet_inv (page (work_urgent OR) []) "#Home Office " H eq_refl)).
Defined.

(** C7: for every input [t] and every starting state, a second
    [addTag(t)] changes nothing: the vocabulary (and everything else) is
    as one call left it, whether or not the first call's completion
    callback has run in between. *)
Theorem addTag_twice (a : App) (t : string) :
  addTag (addTag a t) t = addTag a t ∧
  addTag_call (addTag_call a t).1 t = ((addTag_call a t).1, false) ∧
  tags (state (addTag (addTag a t) t)) = tags (state (addTag a t)) ∧
  customTags (addTag (addTag a t) t) = customTags (addTag a t).
Proof.
  assert (addTag (addTag a t) t = addTag a t) as H.
  { apply addTag_present, addTag_elem. }
  split_and!; [done| |by rewrite H..].
  apply addTag_call_present, addTag_call_elem.
Qed.

(** C6: for every tag that is in the vocabulary and in the active
    filters, one [deleteTag(tag)] call takes it out of both (and out of
    the persisted vocabulary) before it returns, and the state after the
    completion callback has it in neither; the re-rendered bar has no chip
    for it. *)
Theorem deleteTag_removes_everywhere (a : App) (tag : string) :
  tag ∈ tags (state a) →
  tag ∈ activeFilters (state a) →
  ((tag ∉ tags (state (deleteTag_call a tag))) ∧
   (tag ∉ activeFilters (state (deleteTag_call a tag))) ∧
   (tag ∉ customTags (deleteTag_call a tag))) ∧
  ((tag ∉ tags (state (deleteTag a tag))) ∧
   (tag ∉ activeFilters (state (deleteTag a tag))) ∧
   (tag ∉ customTags (deleteTag a tag))) ∧
  (container a = true →
   ∃ b, bar (deleteTag a tag) = Some b ∧ tag ∉ boundTag <$> tagChips b).
Proof.
  intros _ _.
  assert (tag ∉ filter (λ t, t ≠ tag) (tags (state a))) as Hl.
  { rewrite list_elem_of_filter. tauto. }
  assert (tag ∉ activeFilters (state a) ∖ {[tag]}) as Hs.
  { intros [_ H]%elem_of_difference. apply H. by apply elem_of_singleton. }
  split_and!; try done.
  - by rewrite deleteTag_tags.
  - by rewrite deleteTag_activeFilters.
  - by rewrite deleteTag_customTags.
  - intros Hc. unfold deleteTag, render. simpl. rewrite Hc. simpl.
    eexists. split; [done|]. simpl.
    rewrite <- list_fmap_compose, list_fmap_id.
    by rewrite sort_Permutation.
Qed.

Lemma deleteTag_removes_everywhere_witness :
  ("work" ∈ tags (work_urgent OR) ∧ "work" ∈ activeFilters (work_urgent OR)) ∧
  ("work" ∉ tags (state (deleteTag (page (work_urgent OR) [milk_row]) "work"))) ∧
  "work" ∉ activeFilters (state (deleteTag (page (work_urgent OR) [milk_row]) "work")).
Proof.
  assert ("work" ∈ tags (work_urgent OR)) as H1 by by_evaluation.
  assert ("work" ∈ activeFilters (work_urgent OR)) as H2 by by_evaluation.
  split; [done|].
  pose proof (deleteTag_removes_everywhere (page (work_urgent OR) [milk_row])
                "work" H1 H2) as (_ & (Ht & Hf & _) & _).
  done.
Defined.

(** C8: every render that builds the bar puts one chip per tag, in
    lexicographic (code-unit) order of the tag text, whatever the order of
    the tag array before; from an empty vocabulary, inserting "zebra" and
    then "apple" renders the chip of "apple" before the chip of "zebra". *)
Theorem render_chips_sorted (a : App) :
  container a = true →
  ∃ b, bar (render a) = Some b ∧
       boundTag <$> tagChips b ≡ₚ tags (state a) ∧
       StronglySorted String.le (boundTag <$> tagChips b) ∧
       (chipText ∘ chip <$> tagChips b) = (λ t, "#" +:+ t) <$> (boundTag <$> tagChips b) ∧
       StronglySorted String.le (chipText ∘ chip <$> tagChips b) ∧
       (tags (state a) = [] →
        ∃ b', bar (addTag (addTag a "zebra") "apple") = Some b' ∧
              chipText ∘ chip <$> tagChips b' = ["#apple"; "#zebra"]).
Proof.
  intros Hc. unfold render at 1. rewrite Hc. eexists. split; [done|]. simpl.
  assert (boundTag <$> (render_tagChip (with_tags (state a) (sort (tags (state a))))
                          <$> sort (tags (state a))) = sort (tags (state a))) as Hb.
  { by rewrite <- list_fmap_compose, list_fmap_id. }
  assert (chipText ∘ chip <$> (render_tagChip (with_tags (state a) (sort (tags (state a))))
                          <$> sort (tags (state a)))
          = (λ t, "#" +:+ t) <$> sort (tags (state a))) as Ht.
  { rewrite <- list_fmap_compose. apply list_fmap_ext. intros _ t _. simpl.
    unfold render_tagChip. simpl. by destruct (isDeleteMode (state a)). }
  rewrite Hb, Ht. split_and!.
  - apply sort_Permutation.
  - apply sort_StronglySorted.
  - done.
  - apply (StronglySorted_fmap _ String.le String.le); [|apply sort_StronglySorted].
    intros x y. by rewrite hash_le.
  - intros He. destruct a as [[tg af fm dm] ct c ob rows]. simpl in *. subst.
    unfold addTag, addTag_call, render. simpl.
    eexists. split; [done|]. simpl. by destruct dm.
Qed.

Lemma render_chips_sorted_witness :
  container fresh_app = true ∧
  ∃ b, bar (addTag (addTag fresh_app "zebra") "apple") = Some b ∧
       chipText ∘ chip <$> tagChips b = ["#apple"; "#zebra"].
Proof.
  split; [done|].
  destruct (render_chips_sorted fresh_app eq_refl) as (_ & _ & _ & _ & _ & _ & H).
  exact (H eq_refl).
Defined.

(** C9: [applyFilter] leaves the filter state, the store and the bar
    alone and keeps the rows in place; on each row it either removes or
    adds the class [task-hidden] and changes nothing else: the text, the
    other attributes, and the other classes with their order are as
    before. *)
Theorem applyFilter_frame (a : App) :
  (state (applyFilter a) = state a ∧
   customTags (applyFilter a) = customTags a ∧
   container (applyFilter a) = container a ∧
   bar (applyFilter a) = bar a ∧
   length (listitems (applyFilter a)) = length (listitems a)) ∧
  ∀ i task,
    listitems a !! i = Some task →
    ∃ task',
      listitems (applyFilter a) !! i = Some task' ∧
      innerText task' = innerText task ∧
      otherAttributes task' = otherAttributes task ∧
      (classList task' = classList_remove hidden_class (classList task) ∨
       classList task' = classList_add hidden_class (classList task)) ∧
      filter (λ c, c ≠ hidden_class) (classList task') =
      filter (λ c, c ≠ hidden_class) (classList task).
Proof.
  split.
  { split_and!; try done. apply length_fmap. }
  intros i task Hi. rewrite applyFilter_lookup, Hi. simpl.
  eexists. split; [done|].
  assert (∀ l : list string,
    filter (λ c, c ≠ hidden_class) (classList_remove hidden_class l) =
    filter (λ c, c ≠ hidden_class) l) as Hrem.
  { intros l. unfold classList_remove. rewrite list_filter_filter.
    apply list_filter_iff. tauto. }
  assert (∀ l : list string,
    filter (λ c, c ≠ hidden_class) (classList_add hidden_class l) =
    filter (λ c, c ≠ hidden_class) l) as Hadd.
  { intros l. unfold classList_add. case_decide; [done|].
    rewrite filter_app, filter_cons_False, filter_nil; [|tauto].
    by rewrite app_nil_r. }
  unfold applyFilter_task.
  destruct (is_add_button _); simpl; [by split_and!; auto|].
  case_bool_decide; simpl; [by split_and!; auto|].
  destruct (shouldShow _ _); simpl; by split_and!; auto.
Qed.

Lemma applyFilter_frame_witness :
  listitems (page (work_urgent AND) [add_row; milk_row]) !! 1 = Some milk_row ∧
  ∃ task',
    listitems (applyFilter (page (work_urgent AND) [add_row; milk_row])) !! 1
      = Some task' ∧
    innerText task' = innerText milk_row ∧
    otherAttributes task' = otherAttributes milk_row ∧
    (classList task' = classList_remove hidden_class (classList milk_row) ∨
     classList task' = classList_add hidden_class (classList milk_row)) ∧
    filter (λ c, c ≠ hidden_class) (classList task') =
    filter (λ c, c ≠ hidden_class) (classList milk_row).
Proof.
  split; [done|].
  exact (proj2 (applyFilter_frame (page (work_urgent AND) [add_row; milk_row]))
           1 milk_row eq_refl).
Defined.

(** C10: [addTag] does not reject an input that normalises to the empty
    string: [addTag("#")], which the input box lets through, appends the
    empty tag unless it is already there; and with the empty tag active
    the membership test looks for ["#"] alone, so a row that contains a
    ['#'] anywhere passes it, and is shown in ANY mode (and in ALL mode
    when the empty tag is the only active one). *)
Theorem empty_tag_matches_any_hash (a : App) (i : nat) (task : Task) :
  (normalize "#" = "" ∧
   commit a "#" = addTag a "#" ∧
   tags (state (addTag_call a "#").1) =
     (if bool_decide ("" ∈ tags (state a)) then tags (state a)
      else tags (state a) ++ [""]) ∧
   "" ∈ tags (state (addTag a "#"))) ∧
  (listitems a !! i = Some task →
   "" ∈ activeFilters (state a) →
   substring_of "#" (innerText task) →
   JS.includes (JS.toLowerCase (innerText task)) ("#" +:+ "") = true ∧
   (filterMode (state a) = OR ∨ activeFilters (state a) = {[""]} →
    row_shown_after a i)).
Proof.
  split.
  { split_and!; [done|done|apply (addTag_call_tags a "#")|apply (addTag_elem a "#")]. }
  intros Hi Hact Hsub.
  assert (substring_of "#" (JS.toLowerCase (innerText task))) as Hlow.
  { apply includes_spec, includes_hash. rewrite count_hash_toLowerCase.
    by apply includes_hash, includes_spec. }
  split; [by apply includes_spec|].
  intros Hmode.
  rewrite (row_shown_after_iff _ _ _ Hi), applyFilter_task_shown.
  right; right. apply shouldShow_spec. unfold membership_rule.
  destruct Hmode as [-> | Hf].
  - by exists "".
  - destruct (filterMode (state a)); [by exists ""|].
    rewrite Hf. by intros t ->%elem_of_singleton.
Qed.

Lemma empty_tag_matches_any_hash_witness :
  (listitems (page (empty_tag_active AND) [hash_row]) !! 0 = Some hash_row ∧
   "" ∈ activeFilters (empty_tag_active AND) ∧
   substring_of "#" (innerText hash_row) ∧
   activeFilters (empty_tag_active AND) = {[""]}) ∧
  tags (state (addTag fresh_app "#")) = [""] ∧
  row_shown_after (page (empty_tag_active AND) [hash_row]) 0.
Proof.
  assert ("" ∈ activeFilters (empty_tag_active AND)) as H1 by by_evaluation.
  assert (substring_of "#" (innerText hash_row)) as H2 by (by apply includes_spec).
  split; [done|]. split; [done|].
  pose proof (empty_tag_matches_any_hash (page (empty_tag_active AND) [hash_row])
                0 hash_row) as [_ H].
  destruct (H eq_refl H1 H2) as [_ Hshown]. apply Hshown. by right.
Defined.

(** ** Rendering, once more *)

Section render_facts.
Implicit Types a : App.
Implicit Types s : State.

Lemma sort_sort (l : list string) : sort (sort l) = sort l.
Proof.
  symmetry. apply sort_unique; [done|]. apply (Sorted_merge_sort _).
Qed.

Lemma sort_Permutation_eq (l k : list string) : l ≡ₚ k → sort l = sort k.
Proof.
  intros H. apply sort_unique; [|apply (Sorted_merge_sort _)].
  by rewrite sort_Permutation.
Qed.

Lemma with_tags_with_tags s (l k : list string) :
  with_tags (with_tags s l) k = with_tags s k.
Proof. reflexivity. Qed.

Lemma classList_add_other (c d : string) (l : list string) :
  c ≠ d → c ∈ classList_add d l ↔ c ∈ l.
Proof.
  intros Hne. unfold classList_add. case_decide; [done|].
  rewrite elem_of_app, list_elem_of_singleton. tauto.
Qed.

Lemma classList_add_elem (c : string) (l : list string) : c ∈ classList_add c l.
Proof.
  unfold classList_add. case_decide; [done|].
  apply elem_of_app. right. left.
Qed.
End render_facts.

(** Refutes the membership of a class token in a literal token list. *)
Ltac no_such_class :=
  let H := fresh "Hcl" in
  intros H;
  repeat (apply elem_of_cons in H as [?|H]; [done|]);
  by apply elem_of_nil in H.

(** X1: rendering twice is rendering once, and a render leaves the active
    filters, the mode, the delete flag, the store, the container and the
    rows as they are; the vocabulary keeps its entries (it is only
    sorted). *)
Theorem render_idempotent (a : App) :
  render (render a) = render a ∧
  activeFilters (state (render a)) = activeFilters (state a) ∧
  filterMode (state (render a)) = filterMode (state a) ∧
  isDeleteMode (state (render a)) = isDeleteMode (state a) ∧
  customTags (render a) = customTags a ∧
  container (render a) = container a ∧
  listitems (render a) = listitems a ∧
  tags (state (render a)) ≡ₚ tags (state a).
Proof.
  split_and!; try (unfold render; by destruct (container a) eqn:?).
  - unfold render. destruct (container a) eqn:Hc; simpl; [|by rewrite Hc].
    by rewrite !sort_sort, !with_tags_with_tags.
  - apply render_tags.
Qed.

(** X2: the bar that a render builds shows the state: every tag chip
    reads ['#'] followed by its tag, carries the class [active] exactly
    when the lower-cased tag is an active filter and the class
    [delete-mode-active] exactly in delete mode; the mode button reads
    "Any" in OR mode and "All" (with the class [mode-active]) in AND mode;
    the input is disabled exactly in delete mode. *)
Theorem render_bar_reflects_state (a : App) :
  container a = true →
  ∃ b, bar (render a) = Some b ∧
    (∀ c, c ∈ tagChips b →
       boundTag c ∈ tags (state a) ∧
       chipText (chip c) = "#" +:+ boundTag c ∧
       ("active" ∈ chipClasses (chip c) ↔
          JS.toLowerCase (boundTag c) ∈ activeFilters (state a)) ∧
       ("delete-mode-active" ∈ chipClasses (chip c) ↔
          isDeleteMode (state a) = true)) ∧
    chipText (modeBtn b) = (if decide (filterMode (state a) = OR) then "Any" else "All") ∧
    ("mode-active" ∈ chipClasses (modeBtn b) ↔ filterMode (state a) = AND) ∧
    inputDisabled (controls b) = isDeleteMode (state a) ∧
    ("trash-active" ∈ trashClasses (controls b) ↔ isDeleteMode (state a) = true).
Proof.
  intros Hc. unfold render. rewrite Hc. eexists. split; [done|]. simpl.
  split_and!.
  - intros c (t & -> & Ht)%list_elem_of_fmap.
    rewrite sort_Permutation in Ht.
    unfold render_tagChip. simpl. split_and!; [done| | |].
    + by destruct (isDeleteMode (state a)).
    + destruct (isDeleteMode (state a)); simpl;
        rewrite ?classList_add_other by done;
        (case_bool_decide as Hin; simpl;
         [split; [done|]; intros _; right; left
         |split; [no_such_class|done]]).
    + destruct (isDeleteMode (state a)); simpl.
      * split; [done|]. intros _. apply classList_add_elem.
      * split; [|done]. case_bool_decide; simpl; no_such_class.
  - unfold render_modeBtn. simpl. by destruct (filterMode (state a)).
  - unfold render_modeBtn. simpl. destruct (filterMode (state a)); simpl.
    + split; [no_such_class|done].
    + split; [done|]. intros _. apply classList_add_elem.
  - done.
  - destruct (isDeleteMode (state a)); simpl.
    + split; [done|]. intros _. do 2 right. left.
    + split; [no_such_class|done].
Qed.

Lemma render_bar_reflects_state_witness :
  container (page (work_urgent AND) []) = true ∧
  ∃ b, bar (render (page (work_urgent AND) [])) = Some b ∧
       chipText (modeBtn b) = "All" ∧
       (∀ c, c ∈ tagChips b → "active" ∈ chipClasses (chip c)).
Proof.
  split; [done|].
  destruct (render_bar_reflects_state (page (work_urgent AND) []) eq_refl)
    as (b & Hb & Hchips & Hmode & _).
  exists b. split; [done|]. split; [done|].
  intros c Hc. destruct (Hchips c Hc) as (Hin & _ & Hact & _).
  apply Hact.
  assert (∀ t, t ∈ tags (work_urgent AND) →
               JS.toLowerCase t ∈ activeFilters (work_urgent AND)) as Hall.
  { intros t Ht. apply list_elem_of_In in Ht.
    destruct Ht as [<-|[<-|[]]]; by_evaluation. }
  by apply Hall.
Defined.

(** ** Visibility, once more *)

Section visibility_facts.
Implicit Types a : App.
Implicit Types s : State.
Implicit Types task : Task.

Lemma render_listitems a : listitems (render a) = listitems a.
Proof. unfold render. by destruct (container a). Qed.

Lemma render_filterMode a : filterMode (state (render a)) = filterMode (state a).
Proof. unfold render. by destruct (container a). Qed.

Lemma render_isDeleteMode a :
  isDeleteMode (state (render a)) = isDeleteMode (state a).
Proof. unfold render. by destruct (container a). Qed.

Lemma classList_remove_idemp (c : string) (l : list string) :
  classList_remove c (classList_remove c l) = classList_remove c l.
Proof.
  unfold classList_remove. rewrite list_filter_filter.
  apply list_filter_iff. tauto.
Qed.

Lemma classList_add_idemp (c : string) (l : list string) :
  classList_add c (classList_add c l) = classList_add c l.
Proof.
  unfold classList_add at 1. rewrite decide_True; [done|].
  apply classList_add_elem.
Qed.

(** The four branches of the row callback, as one decision. *)
Lemma applyFilter_task_eq s task :
  applyFilter_task s task =
  with_classList task
    (if is_add_button (JS.toLowerCase (innerText task))
        || bool_decide (size (activeFilters s) = 0)
        || shouldShow s (JS.toLowerCase (innerText task))
     then classList_remove hidden_class (classList task)
     else classList_add hidden_class (classList task)).
Proof.
  unfold applyFilter_task.
  destruct (is_add_button _); [done|].
  case_bool_decide; [done|]. by destruct (shouldShow _ _).
Qed.

Lemma applyFilter_task_innerText s task :
  innerText (applyFilter_task s task) = innerText task.
Proof. by rewrite applyFilter_task_eq. Qed.

Lemma applyFilter_task_idemp s task :
  applyFilter_task s (applyFilter_task s task) = applyFilter_task s task.
Proof.
  rewrite (applyFilter_task_eq s (applyFilter_task s task)).
  rewrite applyFilter_task_innerText, (applyFilter_task_eq s task).
  unfold with_classList. simpl.
  destruct (_ || _ || _).
  - by rewrite classList_remove_idemp.
  - by rewrite classList_add_idemp.
Qed.

(** The outcome for a row depends on the state only through the active
    filters and the mode. *)
Lemma applyFilter_task_ext s s' task :
  activeFilters s = activeFilters s' → filterMode s = filterMode s' →
  applyFilter_task s task = applyFilter_task s' task.
Proof.
  intros Hf Hm. unfold applyFilter_task, shouldShow. by rewrite Hf, Hm.
Qed.

Lemma shown_iff s task :
  shown (applyFilter_task s task) ↔
  is_add_button (JS.toLowerCase (innerText task)) = true ∨
  activeFilters s = ∅ ∨ membership_rule s task.
Proof. by rewrite applyFilter_task_shown, shouldShow_spec. Qed.

End visibility_facts.

(** X3: the visibility recomputation is idempotent: a second pass over
    the page changes nothing. *)
Theorem applyFilter_idempotent (a : App) :
  applyFilter (applyFilter a) = applyFilter a.
Proof.
  unfold applyFilter. simpl. f_equal.
  rewrite <- list_fmap_compose. apply list_fmap_ext.
  intros i task _. apply applyFilter_task_idemp.
Qed.





(** ** The click handlers *)

Section handler_facts.
Implicit Types a : App.
Implicit Types tag t : string.

Lemma tagChip_onclick_normal a (c : TagChip) :
  isDeleteMode (state a) = false →
  tagChip_onclick a c =
  applyFilter (render (with_state a (with_activeFilters (state a)
    (if boundActive c
     then activeFilters (state a) ∖ {[JS.toLowerCase (boundTag c)]}
     else {[JS.toLowerCase (boundTag c)]} ∪ activeFilters (state a))))).
Proof. intros H. unfold tagChip_onclick. by rewrite H. Qed.

Lemma tagChip_onclick_activeFilters a tag :
  isDeleteMode (state a) = false →
  activeFilters (state (tagChip_onclick a (render_tagChip (state a) tag))) =
  if bool_decide (JS.toLowerCase tag ∈ activeFilters (state a))
  then activeFilters (state a) ∖ {[JS.toLowerCase tag]}
  else {[JS.toLowerCase tag]} ∪ activeFilters (state a).
Proof.
  intros H. rewrite tagChip_onclick_normal by done. simpl.
  rewrite render_activeFilters. simpl. by case_bool_decide.
Qed.

Lemma tagChip_onclick_isDeleteMode a (c : TagChip) :
  isDeleteMode (state a) = false →
  isDeleteMode (state (tagChip_onclick a c)) = false.
Proof.
  intros H. rewrite tagChip_onclick_normal by done. simpl.
  by rewrite render_isDeleteMode.
Qed.

(** Flipping the membership of [x] in a set, and flipping it back. *)
Lemma flip_member (f : gset string) (x t : string) :
  t ∈ (if bool_decide (x ∈ f) then f ∖ {[x]} else {[x]} ∪ f) ↔
  (t = x ∧ x ∉ f) ∨ (t ≠ x ∧ t ∈ f).
Proof.
  case_bool_decide as Hx.
  - rewrite elem_of_difference, elem_of_singleton.
    destruct (decide (t = x)) as [->|]; tauto.
  - rewrite elem_of_union, elem_of_singleton.
    destruct (decide (t = x)) as [->|]; tauto.
Qed.

Lemma flip_member_twice (f f1 f2 : gset string) (x : string) :
  f1 = (if bool_decide (x ∈ f) then f ∖ {[x]} else {[x]} ∪ f) →
  f2 = (if bool_decide (x ∈ f1) then f1 ∖ {[x]} else {[x]} ∪ f1) →
  f2 = f.
Proof.
  intros -> ->. apply set_eq. intros t. rewrite !flip_member.
  destruct (decide (t = x)) as [->|]; destruct (decide (x ∈ f)); tauto.
Qed.

Lemma deleteTag_isDeleteMode a tag :
  isDeleteMode (state (deleteTag a tag)) = isDeleteMode (state a).
Proof. unfold deleteTag. simpl. by rewrite render_isDeleteMode. Qed.
End handler_facts.

(** X6: outside delete mode, a click on the chip of a tag flips the
    membership of the lower-cased tag in the active filters and of no
    other string, keeps the vocabulary, the store and the mode, and a
    second click on the re-rendered chip brings the active filters back. *)
Theorem tagChip_onclick_toggles (a : App) (tag : string) :
  isDeleteMode (state a) = false →
  let a1 := tagChip_onclick a (render_tagChip (state a) tag) in
  let a2 := tagChip_onclick a1 (render_tagChip (state a1) tag) in
  (JS.toLowerCase tag ∈ activeFilters (state a1) ↔
   JS.toLowerCase tag ∉ activeFilters (state a)) ∧
  (∀ t, t ≠ JS.toLowerCase tag →
        t ∈ activeFilters (state a1) ↔ t ∈ activeFilters (state a)) ∧
  tags (state a1) ≡ₚ tags (state a) ∧
  customTags a1 = customTags a ∧
  filterMode (state a1) = filterMode (state a) ∧
  activeFilters (state a2) = activeFilters (state a).
Proof.
  intros Hd a1 a2.
  assert (isDeleteMode (state a1) = false) as Hd1
    by by apply tagChip_onclick_isDeleteMode.
  assert (activeFilters (state a1) =
          if bool_decide (JS.toLowerCase tag ∈ activeFilters (state a))
          then activeFilters (state a) ∖ {[JS.toLowerCase tag]}
          else {[JS.toLowerCase tag]} ∪ activeFilters (state a)) as H1
    by by apply tagChip_onclick_activeFilters.
  assert (activeFilters (state a2) =
          if bool_decide (JS.toLowerCase tag ∈ activeFilters (state a1))
          then activeFilters (state a1) ∖ {[JS.toLowerCase tag]}
          else {[JS.toLowerCase tag]} ∪ activeFilters (state a1)) as H2
    by by apply tagChip_onclick_activeFilters.
  split_and!.
  - rewrite H1, flip_member. tauto.
  - intros t Ht. rewrite H1, flip_member. tauto.
  - unfold a1. rewrite tagChip_onclick_normal by done. simpl.
    by rewrite render_tags.
  - unfold a1. rewrite tagChip_onclick_normal by done. simpl.
    by rewrite render_customTags.
  - unfold a1. rewrite tagChip_onclick_normal by done. simpl.
    by rewrite render_filterMode.
  - exact (flip_member_twice _ _ _ _ H1 H2).
Qed.

Lemma tagChip_onclick_toggles_witness :
  isDeleteMode (no_filter OR) = false ∧
  ("work" ∈ activeFilters (state (tagChip_onclick (page (no_filter OR) [milk_row])
              (render_tagChip (no_filter OR) "work"))) ↔
   "work" ∉ activeFilters (no_filter OR)).
Proof.
  split; [done|].
  exact (proj1 (tagChip_onclick_toggles (page (no_filter OR) [milk_row]) "work"
                  eq_refl)).
Defined.

(** X7: in delete mode the mode button does nothing; outside it, a click
    switches between ANY and ALL, keeps the active filters and the store,
    and a second click brings the mode back. *)
Theorem modeBtn_onclick_twice (a : App) :
  (isDeleteMode (state a) = true → modeBtn_onclick a = a) ∧
  (isDeleteMode (state a) = false →
   filterMode (state (modeBtn_onclick a)) ≠ filterMode (state a) ∧
   filterMode (state (modeBtn_onclick (modeBtn_onclick a))) = filterMode (state a) ∧
   activeFilters (state (modeBtn_onclick a)) = activeFilters (state a) ∧
   tags (state (modeBtn_onclick a)) ≡ₚ tags (state a) ∧
   customTags (modeBtn_onclick a) = customTags a).
Proof.
  split; intros Hd.
  { unfold modeBtn_onclick. by rewrite Hd. }
  assert (∀ a', isDeleteMode (state a') = false →
    filterMode (state (modeBtn_onclick a')) =
      (if decide (filterMode (state a') = OR) then AND else OR) ∧
    isDeleteMode (state (modeBtn_onclick a')) = false) as Hstep.
  { intros a' Hd'. unfold modeBtn_onclick. rewrite Hd'. simpl.
    by rewrite render_filterMode, render_isDeleteMode. }
  destruct (Hstep a Hd) as [H1 Hd1]. destruct (Hstep _ Hd1) as [H2 _].
  split_and!.
  - rewrite H1. by destruct (filterMode (state a)).
  - rewrite H2, H1. by destruct (filterMode (state a)).
  - unfold modeBtn_onclick. rewrite Hd. simpl. by rewrite render_activeFilters.
  - unfold modeBtn_onclick. rewrite Hd. simpl. by rewrite render_tags.
  - unfold modeBtn_onclick. rewrite Hd. simpl. by rewrite render_customTags.
Qed.

Lemma modeBtn_onclick_twice_witness :
  isDeleteMode (work_urgent OR) = false ∧
  filterMode (state (modeBtn_onclick (page (work_urgent OR) []))) ≠ OR.
Proof.
  split; [done|].
  exact (proj1 (proj2 (modeBtn_onclick_twice (page (work_urgent OR) [])) eq_refl)).
Defined.

(** X8: the trash button flips the delete mode and renders; it does not
    touch the rows, the active filters, the mode or the store, and two
    clicks amount to one plain render. *)
Theorem trashBtn_onclick_twice (a : App) :
  isDeleteMode (state (trashBtn_onclick a)) = negb (isDeleteMode (state a)) ∧
  trashBtn_onclick (trashBtn_onclick a) = render a ∧
  listitems (trashBtn_onclick a) = listitems a ∧
  activeFilters (state (trashBtn_onclick a)) = activeFilters (state a) ∧
  filterMode (state (trashBtn_onclick a)) = filterMode (state a) ∧
  customTags (trashBtn_onclick a) = customTags a ∧
  tags (state (trashBtn_onclick a)) ≡ₚ tags (state a).
Proof.
  split_and!.
  - unfold trashBtn_onclick. by rewrite render_isDeleteMode.
  - destruct a as [[tg af fm dm] ct c ob rows].
    unfold trashBtn_onclick, render. simpl.
    destruct c; simpl; rewrite negb_involutive; [|done].
    by rewrite !sort_sort.
  - unfold trashBtn_onclick. by rewrite render_listitems.
  - unfold trashBtn_onclick. by rewrite render_activeFilters.
  - unfold trashBtn_onclick. by rewrite render_filterMode.
  - unfold trashBtn_onclick. by rewrite render_customTags.
  - unfold trashBtn_onclick. by rewrite render_tags.
Qed.


(** ** The vocabulary, once more *)

Section more_vocabulary_facts.
Implicit Types a : App.
Implicit Types val tag t u s : string.




Lemma trimStart_all_white s : all_white s = true → JS.trimStart s = "".
Proof.
  induction s as [|c s IH]; simpl; [done|].
  destruct (JS.is_white c); simpl; [done|discriminate].
Qed.

Lemma trimStart_not_all_white s :
  all_white s = false →
  ∃ c s', JS.trimStart s = String c s' ∧ JS.is_white c = false.
Proof.
  induction s as [|c s IH]; simpl; [done|].
  destruct (JS.is_white c) eqn:E; simpl; [done|]. intros _. by exists c, s.
Qed.

Lemma trimEnd_not_white c s :
  JS.is_white c = false → JS.truthy (JS.trimEnd (String c s)) = true.
Proof. intros H. simpl. rewrite H. by destruct (JS.trimEnd s). Qed.

Lemma truthy_trim s : JS.truthy (JS.trim s) = negb (all_white s).
Proof.
  unfold JS.trim. destruct (all_white s) eqn:E; simpl.
  - by rewrite trimStart_all_white.
  - destruct (trimStart_not_all_white s E) as (c & s' & -> & Hc).
    by apply trimEnd_not_white.
Qed.

Lemma addTag_listitems a val : listitems (addTag a val) = listitems a.
Proof.
  unfold addTag, addTag_call. case_bool_decide; [done|].
  by rewrite render_listitems.
Qed.

Lemma addTag_activeFilters a val :
  activeFilters (state (addTag a val)) = activeFilters (state a).
Proof.
  unfold addTag, addTag_call. case_bool_decide; [done|].
  by rewrite render_activeFilters.
Qed.

Lemma addTag_filterMode a val :
  filterMode (state (addTag a val)) = filterMode (state a).
Proof.
  unfold addTag, addTag_call. case_bool_decide; [done|].
  by rewrite render_filterMode.
Qed.

Lemma addTag_store_in_sync a val : store_in_sync a → store_in_sync (addTag a val).
Proof.
  unfold store_in_sync, addTag, addTag_call. intros H.
  case_bool_decide; [done|]. by rewrite render_customTags, render_tags.
Qed.

Lemma deleteTag_store_in_sync a tag : store_in_sync (deleteTag a tag).
Proof. unfold store_in_sync. by rewrite deleteTag_customTags, deleteTag_tags. Qed.

Lemma TagSet_inv_filter (l : list string) (P : string → Prop)
    `{!∀ x, Decision (P x)} :
  TagSet_inv l → TagSet_inv (filter P l).
Proof.
  intros (Hnd & Hlow & Hlead). split_and!.
  - by apply NoDup_filter.
  - rewrite Forall_forall in Hlow |- *.
    intros x [_ Hx]%list_elem_of_filter. by apply Hlow.
  - rewrite Forall_forall in Hlead |- *.
    intros x [_ Hx]%list_elem_of_filter. by apply Hlead.
Qed.
End more_vocabulary_facts.

(** X9: [deleteTag(tag)] removes the given string and nothing else: the
    other tags stay in the vocabulary and the other active filters stay
    active; the invariant of the vocabulary is kept; the store is written
    with the new vocabulary; a tag that is not there leaves the vocabulary
    and the filters as they were. *)
Theorem deleteTag_keeps_rest (a : App) (tag : string) :
  (∀ t, t ∈ tags (state (deleteTag a tag)) ↔ t ∈ tags (state a) ∧ t ≠ tag) ∧
  (∀ t, t ∈ activeFilters (state (deleteTag a tag)) ↔
        t ∈ activeFilters (state a) ∧ t ≠ tag) ∧
  customTags (deleteTag a tag) ≡ₚ tags (state (deleteTag a tag)) ∧
  (TagSet_inv (tags (state a)) → TagSet_inv (tags (state (deleteTag a tag)))) ∧
  (tag ∉ tags (state a) → tags (state (deleteTag_call a tag)) = tags (state a)) ∧
  (tag ∉ activeFilters (state a) →
   activeFilters (state (deleteTag a tag)) = activeFilters (state a)).
Proof.
  split_and!.
  - intros t. rewrite deleteTag_tags, list_elem_of_filter. tauto.
  - intros t. rewrite deleteTag_activeFilters, elem_of_difference, elem_of_singleton.
    tauto.
  - apply deleteTag_store_in_sync.
  - intros H. eapply TagSet_inv_Permutation; [symmetry; apply deleteTag_tags|].
    by apply TagSet_inv_filter.
  - intros H. rewrite deleteTag_call_tags.
    induction (tags (state a)) as [|x l IH]; [done|].
    apply not_elem_of_cons in H as [Hne Hl].
    rewrite filter_cons_True by done. by rewrite IH.
  - intros H. rewrite deleteTag_activeFilters. apply set_eq. intros t.
    rewrite elem_of_difference, elem_of_singleton. split; [tauto|].
    intros Ht. split; [done|]. by intros ->.
Qed.

Lemma deleteTag_keeps_rest_witness :
  TagSet_inv (tags (work_urgent OR)) ∧
  TagSet_inv (tags (state (deleteTag (page (work_urgent OR) [milk_row]) "work"))).
Proof.
  assert (TagSet_inv (tags (work_urgent OR))) as H.
  { repeat split; [by_evaluation|by repeat constructor..]. }
  split; [exact H|].
  destruct (deleteTag_keeps_rest (page (work_urgent OR) [milk_row]) "work")
    as (_ & _ & _ & Hinv & _).
  exact (Hinv H).
Defined.

(** X10: in delete mode a click on the chip of a tag deletes that tag
    from the vocabulary and stays in delete mode.  The active filter that
    goes with it is the exact string of the tag: the lower-cased tag is
    still active afterwards exactly when it was active and differs from
    the tag, so for a lower-case tag the filter is gone as well. *)
Theorem tagChip_onclick_delete (a : App) (tag : string) :
  isDeleteMode (state a) = true →
  (tag ∉ tags (state (tagChip_onclick a (render_tagChip (state a) tag)))) ∧
  isDeleteMode (state (tagChip_onclick a (render_tagChip (state a) tag))) = true ∧
  (JS.toLowerCase tag ∈
     activeFilters (state (tagChip_onclick a (render_tagChip (state a) tag))) ↔
   JS.toLowerCase tag ∈ activeFilters (state a) ∧ JS.toLowerCase tag ≠ tag) ∧
  (is_lowercase tag →
   JS.toLowerCase tag ∉
     activeFilters (state (tagChip_onclick a (render_tagChip (state a) tag)))).
Proof.
  intros Hd.
  assert (tagChip_onclick a (render_tagChip (state a) tag) = deleteTag a tag) as ->.
  { unfold tagChip_onclick. by rewrite Hd. }
  assert (JS.toLowerCase tag ∈ activeFilters (state (deleteTag a tag)) ↔
          JS.toLowerCase tag ∈ activeFilters (state a) ∧ JS.toLowerCase tag ≠ tag)
    as Hiff.
  { rewrite deleteTag_activeFilters, elem_of_difference, elem_of_singleton. tauto. }
  split_and!.
  - rewrite deleteTag_tags, list_elem_of_filter. tauto.
  - by rewrite deleteTag_isDeleteMode.
  - exact Hiff.
  - intros Hlow. rewrite Hiff. intros [_ H]. by apply H.
Qed.

Lemma tagChip_onclick_delete_witness :
  isDeleteMode (mkState ["urgent"; "work"] {["work"]} OR true) = true ∧
  "work" ∉ tags (state (tagChip_onclick
      (page (mkState ["urgent"; "work"] {["work"]} OR true) [milk_row])
      (render_tagChip (mkState ["urgent"; "work"] {["work"]} OR true) "work"))).
Proof.
  split; [done|].
  exact (proj1 (tagChip_onclick_delete
    (page (mkState ["urgent"; "work"] {["work"]} OR true) [milk_row]) "work"
    eq_refl)).
Defined.

(** X11: when the deleted tag is the only active filter, [deleteTag]
    leaves no filter active and its re-filter marks every row shown. *)
Theorem deleteTag_last_filter_shows_all (a : App) (tag : string) (i : nat)
    (task : Task) :
  activeFilters (state a) ⊆ {[tag]} →
  listitems a !! i = Some task →
  activeFilters (state (deleteTag a tag)) = ∅ ∧
  ∃ task', listitems (deleteTag a tag) !! i = Some task' ∧ shown task'.
Proof.
  intros Hsub Hi.
  assert (activeFilters (state (deleteTag a tag)) = ∅) as He.
  { rewrite deleteTag_activeFilters. apply set_eq. intros t.
    rewrite elem_of_difference, elem_of_singleton. split; [|by intros ?%elem_of_empty].
    intros [Ht Hne]. apply Hsub in Ht. by apply elem_of_singleton in Ht. }
  split; [done|].
  unfold deleteTag in *. rewrite applyFilter_lookup, render_listitems.
  simpl. rewrite Hi. simpl. eexists. split; [done|].
  apply shown_iff. right; left. exact He.
Qed.

Lemma deleteTag_last_filter_shows_all_witness :
  (activeFilters (empty_tag_active AND) ⊆ {[""]} ∧
   listitems (page (empty_tag_active AND) [plain_row]) !! 0 = Some plain_row) ∧
  ∃ task', listitems (deleteTag (page (empty_tag_active AND) [plain_row]) "") !! 0
             = Some task' ∧ shown task'.
Proof.
  assert (activeFilters (empty_tag_active AND) ⊆ {[""]}) as H by done.
  split; [done|].
  exact (proj2 (deleteTag_last_filter_shows_all
    (page (empty_tag_active AND) [plain_row]) "" 0 plain_row H eq_refl)).
Defined.

(** X12: once the persisted vocabulary and the one in memory hold the
    same tags, every handler keeps it so: adding (also through the input
    box), deleting, rendering, re-filtering, and the clicks on a chip, the
    mode button and the trash button.  Deleting, and adding a tag that is
    new, write the store whatever it held before. *)
Theorem store_in_sync_preserved (a : App) (val tag : string) (c : TagChip) :
  store_in_sync a →
  store_in_sync (addTag a val) ∧
  store_in_sync (commit a val) ∧
  store_in_sync (deleteTag a tag) ∧
  store_in_sync (render a) ∧
  store_in_sync (applyFilter a) ∧
  store_in_sync (tagChip_onclick a c) ∧
  store_in_sync (modeBtn_onclick a) ∧
  store_in_sync (trashBtn_onclick a).
Proof.
  intros H.
  assert (∀ a', store_in_sync a' → store_in_sync (render a')) as Hr.
  { unfold store_in_sync. intros a' H'. by rewrite render_customTags, render_tags. }
  split_and!.
  - by apply addTag_store_in_sync.
  - unfold commit. destruct (JS.truthy _); [by apply addTag_store_in_sync|done].
  - apply deleteTag_store_in_sync.
  - by apply Hr.
  - done.
  - unfold tagChip_onclick. destruct (isDeleteMode (state a)).
    + apply deleteTag_store_in_sync.
    + unfold store_in_sync. simpl. by apply Hr.
  - unfold modeBtn_onclick. destruct (isDeleteMode (state a)); [done|].
    unfold store_in_sync. simpl. by apply Hr.
  - unfold trashBtn_onclick. by apply Hr.
Qed.

Lemma store_in_sync_preserved_witness :
  store_in_sync (page (work_urgent OR) []) ∧
  store_in_sync (addTag (page (work_urgent OR) []) "#Home").
Proof.
  assert (store_in_sync (page (work_urgent OR) [])) as H
    by (unfold store_in_sync; reflexivity).
  split; [exact H|].
  exact (proj1 (store_in_sync_preserved (page (work_urgent OR) []) "#Home" ""
                  (render_tagChip (work_urgent OR) "work") H)).
Defined.



(** X14: the input box ignores an entry that is empty or made of white
    space only, and hands every other entry, untrimmed, to [addTag]. *)
Theorem commit_blank (a : App) (value : string) :
  (all_white value = true → commit a value = a) ∧
  (all_white value = false → commit a value = addTag a value).
Proof.
  unfold commit. rewrite truthy_trim.
  split; intros ->; reflexivity.
Qed.

Lemma commit_blank_witness :
  (all_white "   " = true ∧ all_white " Home " = false) ∧
  commit fresh_app "   " = fresh_app ∧
  tags (state (commit fresh_app " Home ")) = [" home "].
Proof.
  split; [done|]. split.
  - exact (proj1 (commit_blank fresh_app "   ") eq_refl).
  - rewrite (proj2 (commit_blank fresh_app " Home ") eq_refl). reflexivity.
Defined.

(** X15: adding a tag changes no row and no filter: the rows, the active
    filters and the mode are as before, and a re-filter after the call
    gives what a re-filter before it gives. *)
Theorem addTag_keeps_visibility (a : App) (val : string) :
  listitems (addTag a val) = listitems a ∧
  activeFilters (state (addTag a val)) = activeFilters (state a) ∧
  filterMode (state (addTag a val)) = filterMode (state a) ∧
  listitems (applyFilter (addTag a val)) = listitems (applyFilter a).
Proof.
  split_and!.
  - apply addTag_listitems.
  - apply addTag_activeFilters.
  - apply addTag_filterMode.
  - unfold applyFilter. simpl. rewrite addTag_listitems.
    apply list_fmap_ext. intros i task _. apply applyFilter_task_ext.
    + apply addTag_activeFilters.
    + apply addTag_filterMode.
Qed.

(** ** Bootstrap and mutation handling *)

Section world_facts.
Implicit Types w : World.
Implicit Types t : Timer.

Lemma anchor_found_host_removes_bar w :
  anchor_found (host_removes_bar w) = anchor_found w.
Proof. reflexivity. Qed.

Lemma anchor_found_with_app_render w :
  anchor_found (with_app w (render (app w))) = anchor_found w.
Proof. unfold anchor_found. simpl. by rewrite render_listitems. Qed.

(** With a container and a store in sync, [init] renders and nothing
    more. *)
Lemma init_app_render w :
  anchor_found w = true → container (app w) = true → store_in_sync (app w) →
  app (init w) = render (app w).
Proof.
  unfold store_in_sync. intros Ha Hc Hs. unfold init. rewrite Ha. simpl.
  unfold render. simpl. rewrite Hc.
  rewrite !with_tags_with_tags. by rewrite (sort_Permutation_eq _ _ Hs).
Qed.

Lemma setTimeout_debounce_inv w cb delay :
  debounce_inv w →
  (cb = CbApplyFilter → debounce w = Some (nextTimer w)) →
  debounce_inv (setTimeout w cb delay).1.
Proof.
  intros (Hnd & Hlt & Hown) Hcb. unfold debounce_inv. simpl. split_and!.
  - rewrite fmap_app. apply NoDup_app. split_and!; [done| |apply NoDup_singleton].
    intros x (t & Hx & Ht)%list_elem_of_fmap Hx'%list_elem_of_singleton.
    apply Hlt in Ht. simpl in Hx'. lia.
  - intros t [Ht| ->%list_elem_of_singleton]%elem_of_app; simpl; [|lia].
    apply Hlt in Ht. lia.
  - intros t [Ht| ->%list_elem_of_singleton]%elem_of_app; simpl; auto.
Qed.

Lemma init_debounce_inv w : debounce_inv w → debounce_inv (init w).
Proof.
  intros H. unfold init. destruct (anchor_found w); [done|].
  by apply setTimeout_debounce_inv.
Qed.

Lemma filter_timers_debounce_inv w (P : Timer → Prop) `{!∀ t, Decision (P t)} :
  debounce_inv w →
  debounce_inv {| app := app w; mainPresent := mainPresent w;
                  observer := observer w; debounce := debounce w;
                  timers := filter P (timers w); nextTimer := nextTimer w |}.
Proof.
  intros (Hnd & Hlt & Hown). unfold debounce_inv. simpl. split_and!.
  - revert Hnd. generalize (timers w). intros l. induction l as [|x l IH]; [done|].
    rewrite fmap_cons, NoDup_cons. intros [Hx Hl].
    destruct (decide (P x)).
    + rewrite filter_cons_True by done. rewrite fmap_cons, NoDup_cons.
      split; [|by apply IH].
      intros (t & Ht & [_ Hin]%list_elem_of_filter)%list_elem_of_fmap.
      apply Hx. apply list_elem_of_fmap. by exists t.
    + rewrite filter_cons_False by done. by apply IH.
  - intros t [_ Ht]%list_elem_of_filter. by apply Hlt.
  - intros t [_ Ht]%list_elem_of_filter. by apply Hown.
Qed.

Lemma handleMutation_debounce_inv w (ms : list MutationType) :
  debounce_inv w → debounce_inv (handleMutation w ms).
Proof.
  intros H. unfold handleMutation. destruct (bar (app w)).
  2: { by apply init_debounce_inv. }
  destruct (shouldRefilter ms); [|done].
  assert (debounce_inv (clearTimeout w (debounce w)) ∧
          ∀ t, t ∈ timers (clearTimeout w (debounce w)) →
               timerCallback t ≠ CbApplyFilter) as [(Hnd & Hlt & _) Hno].
  { destruct (debounce w) as [d|] eqn:Ed; simpl.
    - split; [by apply (filter_timers_debounce_inv w (λ t, timerId t ≠ d))|].
      intros t [Hne Ht]%list_elem_of_filter Hcb.
      destruct H as (_ & _ & Hown). specialize (Hown t Ht Hcb). congruence.
    - split; [done|].
      intros t Ht Hcb.
      destruct H as (_ & _ & Hown). specialize (Hown t Ht Hcb). congruence. }
  assert (nextTimer (clearTimeout w (debounce w)) = nextTimer w) as Hn
    by by destruct (debounce w).
  unfold debounce_inv. simpl. rewrite Hn in *. split_and!.
  - rewrite fmap_app. apply NoDup_app. split_and!; [done| |apply NoDup_singleton].
    intros x (t & Hx & Ht)%list_elem_of_fmap Hx'%list_elem_of_singleton.
    apply Hlt in Ht. simpl in Hx'. lia.
  - intros t [Ht| ->%list_elem_of_singleton]%elem_of_app; simpl; [|lia].
    apply Hlt in Ht. lia.
  - intros t [Ht| ->%list_elem_of_singleton]%elem_of_app; simpl; [|done].
    intros Hcb. by apply Hno in Ht.
Qed.

Lemma fire_debounce_inv w t : debounce_inv w → debounce_inv (fire w t).
Proof.
  intros H. unfold fire.
  pose proof (filter_timers_debounce_inv w (λ t', timerId t' ≠ timerId t) H) as H'.
  destruct (timerCallback t); simpl.
  - by apply init_debounce_inv.
  - done.
Qed.

Lemma owned_timers_at_most_one (l : list Timer) (d : nat) :
  NoDup (timerId <$> l) →
  (∀ t, t ∈ l → timerCallback t = CbApplyFilter → timerId t = d) →
  length (filter (λ t, timerCallback t = CbApplyFilter) l) ≤ 1 ∧
  (0 < length (filter (λ t, timerCallback t = CbApplyFilter) l) →
   d ∈ timerId <$> l).
Proof.
  induction l as [|x l IH]; intros Hnd Hown.
  { rewrite filter_nil. simpl. split; lia. }
  rewrite fmap_cons, NoDup_cons in Hnd. destruct Hnd as [Hx Hl].
  destruct (IH Hl) as [IH1 IH2].
  { intros t Ht. apply Hown. by right. }
  destruct (decide (timerCallback x = CbApplyFilter)) as [Hcb|Hcb].
  - rewrite filter_cons_True by done. simpl.
    assert (timerId x = d) as Hd by (apply Hown; [left|done]).
    split; [|intros _; rewrite <- Hd; left].
    destruct (length (filter _ l)) as [|n] eqn:El; [lia|].
    exfalso. apply Hx. rewrite Hd. apply IH2. lia.
  - rewrite filter_cons_False by done. split; [done|].
    intros Hpos. right. by apply IH2.
Qed.

Lemma debounce_inv_pending w : debounce_inv w → pending_refilters w ≤ 1.
Proof.
  intros (Hnd & Hlt & Hown). unfold pending_refilters.
  destruct (debounce w) as [d|] eqn:Ed.
  - apply (owned_timers_at_most_one _ d Hnd).
    intros t Ht Hcb. specialize (Hown t Ht Hcb). congruence.
  - apply (owned_timers_at_most_one _ 0 Hnd).
    intros t Ht Hcb. specialize (Hown t Ht Hcb). congruence.
Qed.
End world_facts.

(** X16: when the host page throws the rendered bar away, the next
    mutation batch (whatever it holds) brings it back as it was: with an
    anchor in the document and the store in sync, [handleMutation] leaves
    the script exactly as the last render left it - same chips, same
    highlighting, same state. *)
Theorem handleMutation_restores_bar (w : World) (ms : list MutationType) :
  anchor_found w = true →
  container (app w) = true →
  store_in_sync (app w) →
  app (handleMutation (host_removes_bar (with_app w (render (app w)))) ms)
  = render (app w).
Proof.
  unfold store_in_sync. intros Ha Hc Hs.
  unfold handleMutation. simpl. unfold init.
  rewrite anchor_found_host_removes_bar, anchor_found_with_app_render, Ha.
  simpl. rewrite render_customTags, render_listitems.
  unfold render. rewrite Hc. simpl.
  rewrite !with_tags_with_tags. by rewrite (sort_Permutation_eq _ _ Hs).
Qed.

Lemma handleMutation_restores_bar_witness :
  (anchor_found sample_world = true ∧ container (app sample_world) = true ∧
   store_in_sync (app sample_world)) ∧
  bar (app (handleMutation
              (host_removes_bar (with_app sample_world (render (app sample_world))))
              [attributes]))
  = bar (render (app sample_world)).
Proof.
  assert (store_in_sync (app sample_world)) as H
    by (unfold store_in_sync; reflexivity).
  split; [done|].
  exact (f_equal bar (handleMutation_restores_bar sample_world [attributes]
                        eq_refl eq_refl H)).
Defined.

(** X17: the script arms two bootstrap timers.  With an anchor in the
    document, the first one to fire loads the stored vocabulary, renders
    one chip per stored tag in sorted order, none of them active, and
    connects the observer; the second one then changes nothing, and no
    timer is left pending. *)
Theorem bootstrap_twice (stored : list string) (rows : list Task) (main : bool) :
  anchor_found (loaded stored rows main) = true →
  ∀ t0 t1, timers (loaded stored rows main) = [t0; t1] →
    tags (state (app (fire (loaded stored rows main) t0))) = sort stored ∧
    activeFilters (state (app (fire (loaded stored rows main) t0))) = ∅ ∧
    (∃ b, bar (app (fire (loaded stored rows main) t0)) = Some b ∧
          chipText ∘ chip <$> tagChips b = (λ t, "#" +:+ t) <$> sort stored ∧
          boundActive <$> tagChips b = (λ _, false) <$> sort stored) ∧
    observer (fire (loaded stored rows main) t0) = true ∧
    app (fire (fire (loaded stored rows main) t0) t1)
      = app (fire (loaded stored rows main) t0) ∧
    timers (fire (fire (loaded stored rows main) t0) t1) = [].
Proof.
  intros Ha t0 t1 [= <- <-].
  assert (∀ w, listitems (app w) = rows → mainPresent w = main →
               anchor_found w = true) as Hany.
  { intros w Hl Hmp. unfold anchor_found in *. simpl in Ha. by rewrite Hl, Hmp. }
  unfold fire, run_callback. simpl. unfold init.
  rewrite Hany by reflexivity. simpl.
  rewrite Hany by reflexivity. simpl.
  split_and!; try done.
  eexists. split; [done|]. simpl. split.
  - rewrite <- list_fmap_compose. by apply list_fmap_ext.
  - rewrite <- list_fmap_compose. apply list_fmap_ext. intros i t _. simpl.
    apply bool_decide_eq_false_2. apply not_elem_of_empty.
Qed.

Lemma bootstrap_twice_witness :
  anchor_found (loaded ["work"; "home"] [] true) = true ∧
  tags (state (app (fire (loaded ["work"; "home"] [] true)
                      (mkTimer 0 500 CbInit)))) = ["home"; "work"].
Proof.
  split; [done|].
  destruct (bootstrap_twice ["work"; "home"] [] true eq_refl
              (mkTimer 0 500 CbInit) (mkTimer 1 1500 CbInit) eq_refl) as [H _].
  exact H.
Defined.

(** X18: a reload brings the vocabulary back and nothing else: when the
    store was in sync, a fresh instance that bootstraps on the same store
    has the old vocabulary, sorted, and shows the chips of the last
    render, but no filter is active, the mode is ANY and delete mode is
    off. *)
Theorem reload_restores_vocabulary (a : App) (rows : list Task) (main : bool) :
  store_in_sync a →
  anchor_found (loaded (customTags a) rows main) = true →
  tags (state (app (init (loaded (customTags a) rows main)))) = sort (tags (state a)) ∧
  tags (state (app (init (loaded (customTags a) rows main)))) ≡ₚ tags (state a) ∧
  activeFilters (state (app (init (loaded (customTags a) rows main)))) = ∅ ∧
  filterMode (state (app (init (loaded (customTags a) rows main)))) = OR ∧
  isDeleteMode (state (app (init (loaded (customTags a) rows main)))) = false ∧
  customTags (app (init (loaded (customTags a) rows main))) = customTags a ∧
  ∃ b, bar (app (init (loaded (customTags a) rows main))) = Some b ∧
       chipText ∘ chip <$> tagChips b = (λ t, "#" +:+ t) <$> sort (tags (state a)).
Proof.
  unfold store_in_sync. intros Hs Ha. unfold init. rewrite Ha. simpl.
  rewrite (sort_Permutation_eq _ _ Hs).
  split_and!; try done.
  - apply sort_Permutation.
  - eexists. split; [done|]. simpl.
    rewrite <- list_fmap_compose. by apply list_fmap_ext.
Qed.

Lemma reload_restores_vocabulary_witness :
  (store_in_sync (page (work_urgent AND) []) ∧
   anchor_found (loaded (customTags (page (work_urgent AND) [])) [milk_row] false)
     = true) ∧
  activeFilters (state (app (init
    (loaded (customTags (page (work_urgent AND) [])) [milk_row] false)))) = ∅.
Proof.
  assert (store_in_sync (page (work_urgent AND) [])) as H
    by (unfold store_in_sync; reflexivity).
  split; [done|].
  destruct (reload_restores_vocabulary (page (work_urgent AND) []) [milk_row]
              false H eq_refl) as (_ & _ & He & _).
  exact He.
Defined.

Section timer_facts.
Implicit Types w : World.
Implicit Types t : Timer.

Lemma filter_all {A} (Q : A → Prop) `{!∀ x, Decision (Q x)} (l : list A) :
  (∀ x, x ∈ l → Q x) → filter Q l = l.
Proof.
  induction l as [|x l IH]; intros Hall; [done|].
  rewrite filter_cons_True by (apply Hall; left).
  rewrite IH; [done|]. intros y Hy. apply Hall. by right.
Qed.

Lemma filter_none {A} (Q : A → Prop) `{!∀ x, Decision (Q x)} (l : list A) :
  (∀ x, x ∈ l → ¬ Q x) → filter Q l = [].
Proof.
  induction l as [|x l IH]; intros Hall; [done|].
  rewrite filter_cons_False by (apply Hall; left).
  apply IH. intros y Hy. apply Hall. by right.
Qed.

(** Taking one timer out of a list with distinct ids. *)
Lemma remove_timer_count (P : Timer → Prop) `{!∀ x, Decision (P x)}
    (l : list Timer) t :
  NoDup (timerId <$> l) → t ∈ l →
  length (filter P (filter (λ t', timerId t' ≠ timerId t) l))
    + (if decide (P t) then 1 else 0)
  = length (filter P l).
Proof.
  induction l as [|x l IH]; intros Hnd Ht.
  { by apply elem_of_nil in Ht. }
  rewrite fmap_cons, NoDup_cons in Hnd. destruct Hnd as [Hx Hl].
  destruct (decide (timerId x = timerId t)) as [Heq|Hne].
  - assert (t = x) as ->.
    { apply elem_of_cons in Ht as [?|Ht]; [done|].
      exfalso. apply Hx. rewrite Heq. apply list_elem_of_fmap. by exists t. }
    rewrite filter_cons_False by tauto.
    rewrite (filter_all (λ t', timerId t' ≠ timerId x) l).
    + destruct (decide (P x)).
      * rewrite (filter_cons_True P) by done. simpl. lia.
      * rewrite (filter_cons_False P) by done. lia.
    + intros y Hy Heq'. apply Hx. rewrite <- Heq'.
      apply list_elem_of_fmap. by exists y.
  - assert (t ∈ l) as Ht'.
    { apply elem_of_cons in Ht as [->|?]; [done|done]. }
    rewrite (filter_cons_True (λ t', timerId t' ≠ timerId t)) by done.
    specialize (IH Hl Ht').
    destruct (decide (P x)).
    + rewrite !(filter_cons_True P) by done. simpl. lia.
    + rewrite !(filter_cons_False P) by done. lia.
Qed.

Lemma shouldRefilter_spec (ms : list MutationType) :
  shouldRefilter ms = true ↔ childList ∈ ms.
Proof.
  unfold shouldRefilter.
  assert (∀ acc, foldl (λ acc m, if decide (m = childList) then true else acc)
                       acc ms = true ↔ acc = true ∨ childList ∈ ms) as Hgen.
  { induction ms as [|m ms IH]; intros acc; simpl.
    - split; [by left|]. intros [?|Hin]; [done|]. by apply elem_of_nil in Hin.
    - rewrite IH. case_decide as Hm.
      + subst m. split; [intros _; right; left|by left].
      + rewrite elem_of_cons. split; intros [?|Hin]; auto.
        destruct Hin as [?|?]; [congruence|auto]. }
  rewrite Hgen. split; [by intros [?|?]|by right].
Qed.

Lemma render_chips_bar_exists (a : App) :
  container a = true → ∃ b, bar (render a) = Some b.
Proof. intros Hc. unfold render. rewrite Hc. by eexists. Qed.

Lemma handleMutation_refilter w (ms : list MutationType) (b : Bar) :
  bar (app w) = Some b → shouldRefilter ms = true →
  handleMutation w ms =
  {| app := app w; mainPresent := mainPresent w; observer := observer w;
     debounce := Some (nextTimer w);
     timers := timers (clearTimeout w (debounce w)) ++
               [{| timerId := nextTimer w; timerDelay := 100;
                   timerCallback := CbApplyFilter |}];
     nextTimer := S (nextTimer w) |}.
Proof.
  intros Hb Hr. unfold handleMutation. rewrite Hb, Hr.
  by destruct (debounce w).
Qed.

Lemma loaded_debounce_inv (stored : list string) (rows : list Task) (main : bool) :
  debounce_inv (loaded stored rows main).
Proof.
  unfold debounce_inv. simpl. split_and!.
  - repeat constructor; [|by intros ?%elem_of_nil].
    intros ?%list_elem_of_singleton. done.
  - intros t Ht. repeat (apply elem_of_cons in Ht as [->|Ht]; [simpl; lia|]).
    by apply elem_of_nil in Ht.
  - intros t Ht. repeat (apply elem_of_cons in Ht as [->|Ht]; [done|]).
    by apply elem_of_nil in Ht.
Qed.
End timer_facts.

(** X19: while no anchor is in the document the bootstrap neither gives
    up nor multiplies: when a bootstrap timer fires, the script state is
    untouched and the timer is replaced by one new bootstrap timer, so the
    number of pending bootstrap timers stays what it was. *)
Theorem bootstrap_retries (w : World) (t : Timer) :
  anchor_found w = false →
  NoDup (timerId <$> timers w) →
  t ∈ timers w →
  timerCallback t = CbInit →
  app (fire w t) = app w ∧
  pending_inits (fire w t) = pending_inits w ∧
  0 < pending_inits (fire w t) ∧
  pending_refilters (fire w t) = pending_refilters w.
Proof.
  intros Ha Hnd Ht Hcb. unfold fire. rewrite Hcb. simpl. unfold init.
  change (anchor_found _) with (anchor_found w). rewrite Ha.
  unfold pending_inits, pending_refilters. simpl.
  rewrite !filter_app, !length_app.
  rewrite (filter_cons_True (λ t, timerCallback t = CbInit)) by done.
  rewrite (filter_cons_False (λ t, timerCallback t = CbApplyFilter)) by done.
  rewrite !filter_nil. simpl.
  pose proof (remove_timer_count (λ t, timerCallback t = CbInit) _ t Hnd Ht) as H1.
  pose proof (remove_timer_count (λ t, timerCallback t = CbApplyFilter) _ t Hnd Ht)
    as H2.
  rewrite decide_True in H1 by done.
  rewrite decide_False in H2 by congruence.
  split_and!; [done|lia|lia|lia].
Qed.

Lemma bootstrap_retries_witness :
  (anchor_found (loaded ["work"] [] false) = false ∧
   NoDup (timerId <$> timers (loaded ["work"] [] false)) ∧
   mkTimer 0 500 CbInit ∈ timers (loaded ["work"] [] false)) ∧
  pending_inits (fire (loaded ["work"] [] false) (mkTimer 0 500 CbInit)) = 2.
Proof.
  assert (NoDup (timerId <$> timers (loaded ["work"] [] false))) as Hnd
    by by_evaluation.
  assert (mkTimer 0 500 CbInit ∈ timers (loaded ["work"] [] false)) as Hin
    by (simpl; left).
  split; [done|].
  destruct (bootstrap_retries (loaded ["work"] [] false) (mkTimer 0 500 CbInit)
              eq_refl Hnd Hin eq_refl) as (_ & H & _).
  exact H.
Defined.

(** X20: re-filters are coalesced.  From the moment the script is loaded,
    whatever mutation batches arrive and whichever timers fire, the
    debounce slot owns every pending re-filter timer, and so at most one
    re-filter is pending at any time. *)
Theorem debounce_coalesces (w : World) (batches : list (list MutationType))
    (t : Timer) (stored : list string) (rows : list Task) (main : bool) :
  debounce_inv (loaded stored rows main) ∧
  (debounce_inv w →
   debounce_inv (foldl handleMutation w batches) ∧
   debounce_inv (fire w t) ∧
   debounce_inv (init w) ∧
   pending_refilters w ≤ 1 ∧
   pending_refilters (foldl handleMutation w batches) ≤ 1).
Proof.
  split; [apply loaded_debounce_inv|]. intros H.
  assert (debounce_inv (foldl handleMutation w batches)) as Hb.
  { revert w H. induction batches as [|ms batches IH]; intros w H; simpl; [done|].
    apply IH. by apply handleMutation_debounce_inv. }
  split_and!; [done| | | |].
  - by apply fire_debounce_inv.
  - by apply init_debounce_inv.
  - by apply debounce_inv_pending.
  - by apply debounce_inv_pending.
Qed.

Lemma debounce_coalesces_witness :
  debounce_inv sample_world ∧
  pending_refilters (foldl handleMutation sample_world
                       [[childList]; [attributes; childList]; [childList]]) ≤ 1.
Proof.
  assert (debounce_inv sample_world) as H.
  { unfold debounce_inv. simpl. split_and!.
    - constructor.
    - by intros t ?%elem_of_nil.
    - by intros t ?%elem_of_nil. }
  split; [exact H|].
  destruct (debounce_coalesces sample_world
              [[childList]; [attributes; childList]; [childList]]
              (mkTimer 0 500 CbInit) [] [] false) as [_ Hw].
  destruct (Hw H) as (_ & _ & _ & _ & Hp). exact Hp.
Defined.

(** X21: with the bar in place, a batch that holds a child-list change
    does not touch the page at once: it cancels the pending re-filter, if
    any, and arms a new one, 100 ms out, which the debounce slot holds.
    When that timer fires the rows are re-filtered once and no re-filter
    is pending any more.  A batch without a child-list change does
    nothing at all. *)
Theorem handleMutation_debounces (w : World) (ms : list MutationType) (b : Bar) :
  debounce_inv w →
  bar (app w) = Some b →
  (childList ∉ ms → handleMutation w ms = w) ∧
  (childList ∈ ms →
   app (handleMutation w ms) = app w ∧
   pending_refilters (handleMutation w ms) = 1 ∧
   pending_inits (handleMutation w ms) = pending_inits (clearTimeout w (debounce w)) ∧
   ∃ t, t ∈ timers (handleMutation w ms) ∧
        timerCallback t = CbApplyFilter ∧
        timerDelay t = 100 ∧
        debounce (handleMutation w ms) = Some (timerId t) ∧
        app (fire (handleMutation w ms) t) = applyFilter (app w) ∧
        pending_refilters (fire (handleMutation w ms) t) = 0).
Proof.
  intros Hinv Hb. split.
  { intros Hno. unfold handleMutation. rewrite Hb.
    destruct (shouldRefilter ms) eqn:E; [|done].
    by apply shouldRefilter_spec in E. }
  intros Hin. apply shouldRefilter_spec in Hin.
  pose proof (handleMutation_debounce_inv w ms Hinv) as Hinv'.
  pose proof (debounce_inv_pending _ Hinv') as Hle.
  rewrite (handleMutation_refilter w ms b Hb Hin) in *.
  unfold pending_refilters, pending_inits in *. simpl in *.
  rewrite !filter_app, !length_app in *.
  rewrite (filter_cons_True (λ t, timerCallback t = CbApplyFilter)) in * by done.
  rewrite (filter_cons_False (λ t, timerCallback t = CbInit)) by done.
  rewrite !filter_nil in *. simpl in *.
  split_and!; [done|lia|lia|].
  eexists {| timerId := nextTimer w; timerDelay := 100;
             timerCallback := CbApplyFilter |}.
  split_and!; try done.
  - apply elem_of_app. right. left.
  - unfold fire. simpl. rewrite list_filter_filter.
    rewrite filter_none; [done|].
    intros x Hx [Hcb Hne]. destruct Hinv' as (_ & _ & Hown).
    specialize (Hown x Hx Hcb). simpl in Hown. congruence.
Qed.

Lemma handleMutation_debounces_witness :
  (debounce_inv sample_world ∧
   bar (app (with_app sample_world (render (app sample_world)))) ≠ None) ∧
  pending_refilters
    (handleMutation (with_app sample_world (render (app sample_world)))
       [attributes; childList]) = 1.
Proof.
  assert (debounce_inv (with_app sample_world (render (app sample_world)))) as H.
  { unfold debounce_inv. simpl. split_and!.
    - constructor.
    - by intros t ?%elem_of_nil.
    - by intros t ?%elem_of_nil. }
  split; [split; [exact H|done]|].
  destruct (render_chips_bar_exists (app sample_world) eq_refl) as [b Hb].
  assert (childList ∈ [attributes; childList]) as Hin by (right; left).
  destruct (handleMutation_debounces
              (with_app sample_world (render (app sample_world)))
              [attributes; childList] b H Hb) as [_ Hw].
  destruct (Hw Hin) as (_ & Hp & _). exact Hp.
Defined.
